(** * The YOLO (PyTorch) notebook of Mod04/01-Yolo

    A shallow embedding of the two functions the notebook defines,
    [detect_objects] and [show_objects], and of its per-image loop.

    Numbers.  Python integers are [Z].  Python floats (and the tensor
    entries of a detection row) are embedded as exact rationals [Q]: the
    development follows the arithmetic the notebook writes down and leaves
    binary rounding out.  Equality of such numbers is [Qeq], written [==].
    The sizes of the letterbox are recomputed on binary64 floats for the
    pictures used as examples; where a product falls on a tie or a pad on a
    whole number the two arithmetics can differ by one, as
    [binary64_departs_at_ties] records.

    Effects.  The model object and the random generator are threaded
    through a state monad that also raises Python's exceptions and records
    what is drawn and printed. *)

From Stdlib Require Import ZArith QArith Qround Qfield Lia Lqa List Bool String.
From Stdlib Require Import PrimFloat FloatOps SpecFloat.
From stdpp Require Import base list.

Local Open Scope Z_scope.
Local Open Scope Q_scope.

(** ** Python arithmetic used by the notebook *)

Module Py.

(** The exceptions the modelled code can raise. *)
Inductive error : Set :=
| ValueError
| IndexError
| TypeError
| ZeroDivisionError.

(** [a / b] on two integers: true division. *)
Definition truediv (a b : Z) : Q := inject_Z a / inject_Z b.

(** [a // b] on floats: the floor of the quotient, still a float. *)
Definition floordiv (a b : Q) : Q := inject_Z (Qfloor (a / b)).

(** [int(x)]: truncation toward zero. *)
Definition int (x : Q) : Z := Z.quot (Qnum x) (Zpos (Qden x)).

(** [round(x)] with one argument: nearest integer, ties to even. *)
Definition round (x : Q) : Z :=
  let f := Qfloor x in
  match Qcompare (x - inject_Z f) (1 # 2) with
  | Lt => f
  | Gt => (f + 1)%Z
  | Eq => if Z.even f then f else (f + 1)%Z
  end.

(** [min(a, b)] on floats: the first argument unless the second is smaller. *)
Definition min (a b : Q) : Q :=
  match Qcompare b a with Lt => b | _ => a end.

(** [max(t)] on a tuple of integers (only called on non-empty shapes). *)
Definition max_tuple (t : list Z) : Z :=
  match t with
  | [] => 0%Z
  | z :: rest => fold_left Z.max rest z
  end.

End Py.

(** ** Images *)

(** A decoded PIL image, as [Image.open] returns it: width and height in
    pixels, the number of bands (1 for greyscale, 3 for RGB, 4 for RGBA)
    and the pixel data, read as [data row column].  A picture decoded from
    a file has at least one row and one column, hence [positive]. *)
Record Image : Type := mkImage {
  width : positive;
  height : positive;
  bands : positive;
  data : Z -> Z -> list Z
}.

(** PIL's [img.size] is (width, height). *)
Definition size (img : Image) : Z * Z := (Zpos (width img), Zpos (height img)).

(** [np.array(img).shape] is (height, width) for one band and
    (height, width, bands) otherwise. *)
Definition shape (img : Image) : list Z :=
  if (bands img =? 1)%positive then [Zpos (height img); Zpos (width img)]
  else [Zpos (height img); Zpos (width img); Zpos (bands img)].

Definition shape0 (img : Image) : Z := Zpos (height img).
Definition shape1 (img : Image) : Z := Zpos (width img).

(** The notebook's global [img_size]. *)
Definition img_size : Z := 416.

(** ** The rescaling arithmetic of [show_objects] *)

(** [pad_x = max(img.shape[0] - img.shape[1], 0) * (img_size / max(img.shape))] *)
Definition pad_x (img : Image) : Q :=
  inject_Z (Z.max (shape0 img - shape1 img) 0)
  * Py.truediv img_size (Py.max_tuple (shape img)).

(** [pad_y = max(img.shape[1] - img.shape[0], 0) * (img_size / max(img.shape))] *)
Definition pad_y (img : Image) : Q :=
  inject_Z (Z.max (shape1 img - shape0 img) 0)
  * Py.truediv img_size (Py.max_tuple (shape img)).

(** [unpad_h = img_size - pad_y] and [unpad_w = img_size - pad_x] *)
Definition unpad_h (img : Image) : Q := inject_Z img_size - pad_y img.
Definition unpad_w (img : Image) : Q := inject_Z img_size - pad_x img.

(** A row of the detection tensor:
    [x1, y1, x2, y2, conf, cls_conf, cls_pred].  The last entry is the
    index of the winning class, stored as a float by the suppression
    routine; it is kept here as the natural number it holds. *)
Record Detection : Set := mkDetection {
  x1 : Q;
  y1 : Q;
  x2 : Q;
  y2 : Q;
  conf : Q;
  cls_conf : Q;
  cls_pred : nat
}.

(** [((x - pad_x // 2) / unpad_w) * img.shape[1]] *)
Definition rescale_x (img : Image) (x : Q) : Q :=
  ((x - Py.floordiv (pad_x img) 2) / unpad_w img) * inject_Z (shape1 img).

(** [((y - pad_y // 2) / unpad_h) * img.shape[0]] *)
Definition rescale_y (img : Image) (y : Q) : Q :=
  ((y - Py.floordiv (pad_y img) 2) / unpad_h img) * inject_Z (shape0 img).

(** [box_h = ((y2 - y1) / unpad_h) * img.shape[0]] *)
Definition box_h (img : Image) (d : Detection) : Q :=
  ((y2 d - y1 d) / unpad_h img) * inject_Z (shape0 img).

(** [box_w = ((x2 - x1) / unpad_w) * img.shape[1]] *)
Definition box_w (img : Image) (d : Detection) : Q :=
  ((x2 d - x1 d) / unpad_w img) * inject_Z (shape1 img).

(** The rectangle handed to [patches.Rectangle]: anchor and extent. *)
Record Box : Set := mkBox {
  box_x : Q;
  box_y : Q;
  box_width : Q;
  box_height : Q
}.

(** The four assignments of the loop body, in the order of the source:
    the extents are computed from the network-space corners before [y1]
    and [x1] are overwritten. *)
Definition bounding_box (img : Image) (d : Detection) : Box :=
  let bh := box_h img d in
  let bw := box_w img d in
  let y1' := rescale_y img (y1 d) in
  let x1' := rescale_x img (x1 d) in
  mkBox x1' y1' bw bh.

(** A box lies within the picture. *)
Definition within_image (img : Image) (b : Box) : Prop :=
  0 <= box_x b /\ box_x b + box_width b <= inject_Z (Zpos (width img)) /\
  0 <= box_y b /\ box_y b + box_height b <= inject_Z (Zpos (height img)).

(** The region of network space the picture occupies according to
    [show_objects]: from [pad // 2] over [unpad] on each axis. *)
Definition within_unpadded (img : Image) (d : Detection) : Prop :=
  Py.floordiv (pad_x img) 2 <= x1 d /\
  x2 d <= Py.floordiv (pad_x img) 2 + unpad_w img /\
  Py.floordiv (pad_y img) 2 <= y1 d /\
  y2 d <= Py.floordiv (pad_y img) 2 + unpad_h img.

(** The part of [pad / 2] that the floor division drops. *)
Definition dropped (pad : Q) : Q := pad / 2 - Py.floordiv pad 2.

(** ** The letterbox of [detect_objects] *)

(** [ratio = min(img_size/img.size[0], img_size/img.size[1])] *)
Definition ratio (img : Image) : Q :=
  Py.min (Py.truediv img_size (fst (size img)))
         (Py.truediv img_size (snd (size img))).

(** [imw = round(img.size[0] * ratio)] and [imh = round(img.size[1] * ratio)] *)
Definition imw (img : Image) : Z := Py.round (inject_Z (fst (size img)) * ratio img).
Definition imh (img : Image) : Z := Py.round (inject_Z (snd (size img)) * ratio img).

(** What the torchvision transforms build from a decoded image.  [Resize]
    takes its target as (height, width); [Pad] takes (left, top, right,
    bottom) and a fill colour.  Resampling is not interpreted: a picture
    is carried as the transforms applied to its source. *)
Inductive Picture : Type :=
| Decoded (img : Image)
| Resize (h w : Z) (p : Picture)
| Pad (left top right bottom : Z) (fill : Z * Z * Z) (p : Picture).

Fixpoint pic_width (p : Picture) : Z :=
  match p with
  | Decoded img => Zpos (width img)
  | Resize _ w _ => w
  | Pad l _ r _ _ q => (l + pic_width q + r)%Z
  end.

Fixpoint pic_height (p : Picture) : Z :=
  match p with
  | Decoded img => Zpos (height img)
  | Resize h _ _ => h
  | Pad _ t _ b _ q => (t + pic_height q + b)%Z
  end.

(** What the pipeline [img_transforms] builds, up to [ToTensor], when
    none of its transforms raises:
    [Resize((imh, imw))] followed by
    [Pad((max(int((imh-imw)/2),0), max(int((imw-imh)/2),0),
          max(int((imh-imw)/2),0), max(int((imw-imh)/2),0)), (128,128,128))]. *)
Definition img_transforms (img : Image) : Picture :=
  let imw := imw img in
  let imh := imh img in
  Pad (Z.max (Py.int (Py.truediv (imh - imw) 2)) 0)
      (Z.max (Py.int (Py.truediv (imw - imh) 2)) 0)
      (Z.max (Py.int (Py.truediv (imh - imw) 2)) 0)
      (Z.max (Py.int (Py.truediv (imw - imh) 2)) 0)
      (128, 128, 128)%Z
      (Resize imh imw (Decoded img)).

(** [ToTensor()], [.float()] and [.unsqueeze_(0)]: a batch of one picture,
    of shape (1, bands, height, width). *)
Definition Tensor : Type := list Picture.

Definition unsqueeze_ (p : Picture) : Tensor := [p].

(** The number of bands of a picture; resizing and padding keep it. *)
Fixpoint pic_bands (p : Picture) : positive :=
  match p with
  | Decoded img => bands img
  | Resize _ _ q => pic_bands q
  | Pad _ _ _ _ _ q => pic_bands q
  end.

(** Applying [Resize((h, w))]: PIL refuses a target without rows or
    without columns with ValueError. *)
Definition apply_Resize (h w : Z) (p : Picture) : Py.error + Picture :=
  if ((0 <? h) && (0 <? w))%Z then inr (Resize h w p)
  else inl Py.ValueError.

(** Applying [Pad(padding, fill)] with a fill of three values:
    torchvision refuses it with ValueError on a picture that does not
    have three bands. *)
Definition apply_Pad (left top right bottom : Z) (fill : Z * Z * Z) (p : Picture)
  : Py.error + Picture :=
  if (pic_bands p =? 3)%positive then inr (Pad left top right bottom fill p)
  else inl Py.ValueError.

(** [image_tensor = img_transforms(img).float()] followed by
    [image_tensor.unsqueeze_(0)]: the transforms of the pipeline applied
    in turn, each of which may raise. *)
Definition image_tensor (img : Image) : Py.error + Tensor :=
  let imw := imw img in
  let imh := imh img in
  match apply_Resize imh imw (Decoded img) with
  | inl e => inl e
  | inr resized =>
      match apply_Pad (Z.max (Py.int (Py.truediv (imh - imw) 2)) 0)
                      (Z.max (Py.int (Py.truediv (imw - imh) 2)) 0)
                      (Z.max (Py.int (Py.truediv (imh - imw) 2)) 0)
                      (Z.max (Py.int (Py.truediv (imw - imh) 2)) 0)
                      (128, 128, 128)%Z resized with
      | inl e => inl e
      | inr padded => inr (unsqueeze_ padded)
      end
  end.

(** The pictures the transforms accept: both resized sides have at least
    one pixel and the picture has three bands. *)
Definition accepted (img : Image) : Prop :=
  (0 < imh img)%Z /\ (0 < imw img)%Z /\ bands img = 3%positive.

(** The spatial part of the shape of the network input, (height, width). *)
Definition input_shape (t : Tensor) : list (Z * Z) :=
  map (fun p => (pic_height p, pic_width p)) t.

(** ** The same letterbox in binary64

    The sizes above are computed by Python on binary64 floats.  The four
    definitions below redo [ratio], [imw] and [imh] on Rocq's primitive
    binary64 floats, to compare the two on given pictures. *)

(** [round(x)] on a binary64 float: nearest integer, ties to even. *)
Definition round64 (x : float) : Z :=
  match Prim2SF x with
  | S754_finite s m e =>
      let n :=
        if (0 <=? e)%Z then (Zpos m * 2 ^ e)%Z
        else
          let d := (2 ^ (- e))%Z in
          let q := (Zpos m / d)%Z in
          let r := (Zpos m mod d)%Z in
          match (2 * r ?= d)%Z with
          | Lt => q
          | Gt => (q + 1)%Z
          | Eq => if Z.even q then q else (q + 1)%Z
          end in
      if s then (- n)%Z else n
  | _ => 0%Z
  end.

Definition min64 (a b : float) : float :=
  if PrimFloat.ltb b a then b else a.

Definition ratio64 (w h : float) : float :=
  min64 (PrimFloat.div 416 w) (PrimFloat.div 416 h).

Definition imw64 (w h : float) : Z := round64 (PrimFloat.mul w (ratio64 w h)).
Definition imh64 (w h : float) : Z := round64 (PrimFloat.mul h (ratio64 w h)).

(** The floor of a binary64 float. *)
Definition floor64 (x : float) : Z :=
  match Prim2SF x with
  | S754_finite s m e =>
      let n := if s then Z.neg m else Z.pos m in
      if (0 <=? e)%Z then (n * 2 ^ e)%Z else (n / 2 ^ (- e))%Z
  | _ => 0%Z
  end.

(** The pad of [show_objects] on binary64 floats, for a difference of
    sides [a] and a longest side [m]: [a * (img_size / m)]. *)
Definition pad64 (a m : float) : float :=
  PrimFloat.mul a (PrimFloat.div 416 m).

(** ** The detector object *)

Inductive Device : Set := Cpu | Cuda.

(** The state of a [torch.nn.Module]: its parameters and buffers, the
    [training] flag and the device it lives on. *)
Record Darknet : Set := mkDarknet {
  parameters : list Q;
  training : bool;
  device : Device
}.

(** [model.cuda()] and [model.eval()] *)
Definition cuda (m : Darknet) : Darknet :=
  mkDarknet (parameters m) (training m) Cuda.

Definition eval (m : Darknet) : Darknet :=
  mkDarknet (parameters m) false (device m).

(** The raw output of the network: per picture of the batch, the
    candidate rows. *)
Definition Predictions : Type := list (list (list Q)).

(** A colour, as 8-bit red, green and blue. *)
Definition Color : Set := (Z * Z * Z)%type.

(** Modelled from the spec: the collaborators of the notebook that are
    not among the sources.  [forward] is the forward pass of
    [yolo_pytorch.models.Darknet], [non_max_suppression] and
    [load_classes] are those of [yolo_pytorch.utils.utils], and
    [loaded_parameters] is what [models.load_darknet_weights] reads from
    the weights file.  The spec says of them that the detector executes a
    single forward pass, that the suppression collapses duplicate boxes
    under the two thresholds it is given, and that the loaded model is
    reused read-only.  They are carried as an interface, together with two
    facts of the machine and of torch: [torch.cuda.is_available()], and
    [Tensor.unique()], whose output order torch leaves open. *)
Class Environment : Type := mkEnvironment {
  cuda_is_available : bool;
  loaded_parameters : list Q;
  forward : Darknet -> Tensor -> Predictions * Darknet;
  non_max_suppression : Predictions -> Q -> Q -> list (option (list Detection));
  load_classes : list string;
  unique : list nat -> list nat
}.

(** Modelled from the spec: [models.Darknet(model_config, img_size)]
    followed by [models.load_darknet_weights(model, weights)], absent from
    the sources.  A freshly constructed [torch.nn.Module] is in training
    mode and lives on the CPU. *)
Definition load_model `{Environment} : Darknet :=
  mkDarknet loaded_parameters true Cpu.

(** Modelled from the spec: the forward pass of the absent
    [yolo_pytorch.models], of which the spec says that the model is
    "reused read-only".  In evaluation mode a forward pass leaves the
    module as it found it. *)
Definition reused_read_only `{Environment} : Prop :=
  forall (m : Darknet) (x : Tensor), training m = false -> snd (forward m x) = m.

(** [Tensor.unique()]: every value once, in no promised order. *)
Definition unique_lawful `{Environment} : Prop :=
  forall l : list nat, NoDup (unique l) /\ forall c, c ∈ unique l <-> c ∈ l.

(** ** The random generator *)

(** The state of Python's global generator: a position in its stream of
    raw words.  [_randbelow(n)] draws words until one falls below [n], so
    both the number it returns and the count of words it rejected on the
    way are determined by the position and by [n]: [raw g p n] gives the
    two. *)
Record Rng : Type := mkRng {
  raw : nat -> nat -> nat * nat;
  pos : nat
}.

(** [randbelow(n)]: the accepted number, below [n], and the generator
    moved past it and past the words rejected before it. *)
Definition randbelow (g : Rng) (n : nat) : nat * Rng :=
  let (r, rejected) := raw g (pos g) n in
  ((r mod n)%nat, mkRng (raw g) (pos g + S rejected)).

(** The loop of [random.sample] over its pool:
    [for i in range(k): j = randbelow(n-i); result[i] = pool[j];
     pool[j] = pool[n-i-1]].
    [todo] counts the iterations left.  The two lookups are within the
    pool whenever [i + todo <= n = len(pool)]. *)
Fixpoint sample_loop {A : Type} (g : Rng) (pool : list A) (n i todo : nat)
  : list A * Rng :=
  match todo with
  | O => ([], g)
  | S todo' =>
      let (j, g1) := randbelow g (n - i) in
      match pool !! j, pool !! (n - i - 1)%nat with
      | Some x, Some y =>
          let (rest, g2) := sample_loop g1 (<[j := y]> pool) n (S i) todo' in
          (x :: rest, g2)
      | _, _ => ([], g1)
      end
  end.

(** [random.sample(population, k)] for a population of at most 21
    elements, where Python copies the population into a pool and runs the
    loop above; it raises ValueError when [k] exceeds the population. *)
Definition random_sample {A : Type} (population : list A) (k : nat) (g : Rng)
  : (Py.error + list A) * Rng :=
  let n := length population in
  if (k <=? n)%nat then
    let (result, g') := sample_loop g population n 0 k in (inr result, g')
  else (inl Py.ValueError, g).

(** ** The colour map *)

(** matplotlib's table for ['tab20b']. *)
Definition tab20b : list Color :=
  [ (57, 59, 121); (82, 84, 163); (107, 110, 207); (156, 158, 222);
    (99, 121, 57); (140, 162, 82); (181, 207, 107); (206, 219, 156);
    (140, 109, 49); (189, 158, 57); (231, 186, 82); (231, 203, 148);
    (132, 60, 57); (173, 73, 74); (214, 97, 107); (231, 150, 156);
    (123, 65, 115); (165, 81, 148); (206, 109, 189); (222, 158, 214) ]%Z.

(** Calling a listed colour map on a float of [0, 1]: the float is
    multiplied by the number of entries and truncated, and 1 selects the
    last entry. *)
Definition cmap (x : Q) : Color :=
  let n := Z.of_nat (length tab20b) in
  let xa := x * inject_Z n in
  let idx := if Qeq_bool xa (inject_Z n) then (n - 1)%Z else Py.int xa in
  nth (Z.to_nat idx) tab20b (0, 0, 0)%Z.

(** [np.linspace(start, stop, num)] *)
Definition linspace (start stop : Q) (num : nat) : list Q :=
  map (fun i => start + inject_Z (Z.of_nat i) * ((stop - start) / inject_Z (Z.of_nat num - 1)))
      (seq 0 num).

(** [colors = [cmap(i) for i in np.linspace(0, 1, 20)]] *)
Definition colors : list Color := map cmap (linspace 0 1 20).

(** ** Effects: the model, the generator, and what reaches the screen *)

(** The text of a box label, ['{} {:.2f}'.format(predicted_class, cls_conf)],
    kept as its two arguments. *)
Record Label : Set := mkLabel {
  label_class : string;
  label_conf : Q
}.

(** What a run leaves on the display and on the console, in order. *)
Inductive Event : Type :=
| Figure                                   (* plt.figure() *)
| Subplots                                 (* plt.subplots(1, figsize=(12,9)) *)
| Imshow (img : Image)                     (* ax.imshow(img) *)
| AddPatch (b : Box) (edgecolor : Color)   (* ax.add_patch(patches.Rectangle(...)) *)
| Text (x y : Q) (s : Label) (background : Color)   (* plt.text(...) *)
| AxisOff                                  (* plt.axis('off') *)
| Show                                     (* plt.show() *)
| Print (count : nat) (image_file : string).   (* print('Found {} objects in {}'...) *)

(** The objects that outlive a statement: the global [model] and the
    global random generator. *)
Record World : Type := mkWorld {
  model : Darknet;
  gen : Rng
}.

(** The outcome of a computation: a value or the exception raised, the
    world it leaves, and the events it produced up to that point. *)
Record Result (A : Type) : Type := mkResult {
  value : Py.error + A;
  final : World;
  trace : list Event
}.

Arguments mkResult {A} _ _ _.
Arguments value {A} _.
Arguments final {A} _.
Arguments trace {A} _.

Definition M (A : Type) : Type := World -> Result A.

Definition ret {A : Type} (a : A) : M A :=
  fun w => mkResult (inr a) w [].

Definition raise {A : Type} (e : Py.error) : M A :=
  fun w => mkResult (inl e) w [].

Definition bind {A B : Type} (c : M A) (k : A -> M B) : M B :=
  fun w =>
    let r := c w in
    match value r with
    | inl e => mkResult (inl e) (final r) (trace r)
    | inr a =>
        let r' := k a (final r) in
        mkResult (value r') (final r') (trace r ++ trace r')
    end.

Notation "x <- c ;; k" := (bind c (fun x => k))
  (at level 100, c at next level, right associativity).
Notation "c ;; k" := (bind c (fun _ => k))
  (at level 100, right associativity).

Definition emit (e : Event) : M unit :=
  fun w => mkResult (inr tt) w [e].

(** Acting on the global model and drawing from the global generator. *)
Definition on_model {A : Type} (f : Darknet -> A * Darknet) : M A :=
  fun w => let (a, m) := f (model w) in mkResult (inr a) (mkWorld m (gen w)) [].

Definition on_gen {A : Type} (f : Rng -> (Py.error + A) * Rng) : M A :=
  fun w => let (a, g) := f (gen w) in mkResult a (mkWorld (model w) g) [].

(** A computation without effects that returns or raises. *)
Definition lift {A : Type} (x : Py.error + A) : M A :=
  fun w => mkResult x w [].

(** A Python [for] loop whose body may raise. *)
Fixpoint for_each {A : Type} (l : list A) (body : A -> M unit) : M unit :=
  match l with
  | [] => ret tt
  | a :: rest => body a ;; for_each rest body
  end.

(** [l[i]] on a list: IndexError out of range. *)
Definition getitem {A : Type} (l : list A) (i : nat) : M A :=
  match l !! i with
  | Some a => ret a
  | None => raise Py.IndexError
  end.

(** [len(x)] where [x] may be None: TypeError on None. *)
Definition len {A : Type} (x : option (list A)) : M nat :=
  match x with
  | Some l => ret (length l)
  | None => raise Py.TypeError
  end.

(** [np.where(unique_labels == c)[0]]: the positions holding [c]. *)
Fixpoint where_eq (labels : list nat) (c : nat) (from : nat) : list nat :=
  match labels with
  | [] => []
  | l :: rest =>
      if (l =? c)%nat then from :: where_eq rest c (S from)
      else where_eq rest c (S from)
  end.

(** [int(a)] on an array of positions: defined for exactly one element. *)
Definition int_of_array (a : list nat) : M nat :=
  match a with
  | [i] => ret i
  | _ => raise Py.TypeError
  end.

(** ** [detect_objects] *)

Definition detect_objects `{Environment} (img : Image) : M (option (list Detection)) :=
  (* Use GPU if available *)
  (if cuda_is_available then on_model (fun m => (tt, cuda m)) else ret tt) ;;
  (* Set the model to evaluation mode *)
  on_model (fun m => (tt, eval m)) ;;
  (* Transform the image for prediction and convert it to a tensor *)
  image_tensor <- lift (image_tensor img) ;;
  (* Use the model to detect objects in the image *)
  detections <- on_model (fun m => forward m image_tensor) ;;
  (* Eliminate duplicates with non-max suppression *)
  let detections := non_max_suppression detections (8 # 10) (4 # 10) in
  getitem detections 0.

(** ** [show_objects] *)

(** The body of the loop over the detections. *)
Definition draw_detection (classes : list string) (unique_labels : list nat)
    (bbox_colors : list Color) (img : Image) (d : Detection) : M unit :=
  (* Get the class name *)
  predicted_class <- getitem classes (cls_pred d) ;;
  let label := mkLabel predicted_class (cls_conf d) in
  (* Set the box dimensions *)
  let b := bounding_box img d in
  (* Add a box with the color for this class *)
  i <- int_of_array (where_eq unique_labels (cls_pred d) 0) ;;
  color <- getitem bbox_colors i ;;
  emit (AddPatch b color) ;;
  emit (Text (box_x b) (box_y b) label color).

Definition show_objects `{Environment} (img : Image)
    (detections : option (list Detection)) : M unit :=
  emit Figure ;;
  emit Subplots ;;
  emit (Imshow img) ;;
  match detections with
  | Some dets =>
      let classes := load_classes in
      let unique_labels := unique (map cls_pred dets) in
      let n_cls_preds := length unique_labels in
      bbox_colors <- on_gen (random_sample colors n_cls_preds) ;;
      for_each dets (draw_detection classes unique_labels bbox_colors img)
  | None => ret tt
  end ;;
  emit AxisOff ;;
  emit Show.

(** ** The loop over the test images *)

(** One iteration; [os.listdir] and [Image.open] are the list of file
    names with their decoded pictures. *)
Definition process_image `{Environment} (entry : string * Image) : M unit :=
  let (image_file, image) := entry in
  detections <- detect_objects image ;;
  n <- len detections ;;
  emit (Print n image_file) ;;
  show_objects image detections.

Definition process_images `{Environment} (test_dir : list (string * Image)) : M unit :=
  for_each test_dir process_image.

(** ** Reading a trace *)

(** The rectangles drawn, with their edge colours, in drawing order. *)
Fixpoint rectangles (t : list Event) : list (Box * Color) :=
  match t with
  | [] => []
  | AddPatch b c :: rest => (b, c) :: rectangles rest
  | _ :: rest => rectangles rest
  end.

(** The console lines printed, in order. *)
Fixpoint printed (t : list Event) : list (nat * string) :=
  match t with
  | [] => []
  | Print n f :: rest => (n, f) :: printed rest
  | _ :: rest => printed rest
  end.

(** The number of figures brought to the screen. *)
Fixpoint shown (t : list Event) : nat :=
  match t with
  | [] => O
  | Show :: rest => S (shown rest)
  | _ :: rest => shown rest
  end.

(** The rectangle [bc] is the one the loop body draws for [d]: the
    rescaled box, in the colour sampled for the position of its class
    among the unique labels. *)
Definition painted (labels : list nat) (cols : list Color) (img : Image)
    (d : Detection) (bc : Box * Color) : Prop :=
  bc.1 = bounding_box img d /\
  exists k, labels !! k = Some (cls_pred d) /\ cols !! k = Some bc.2.

(** The module as [detect_objects] presents it to the forward pass. *)
Definition prepared `{Environment} (m : Darknet) : Darknet :=
  eval (if cuda_is_available then cuda m else m).

(** ** Sample inputs *)

(** An RGB picture of the given width and height, all black. *)
Definition blank (w h : positive) : Image :=
  mkImage w h 3 (fun _ _ => [0; 0; 0]%Z).

(** The centre of network-input space, [img_size / 2], on either axis. *)
Definition network_center : Q := inject_Z img_size / 2.

(** The centre of network space lands on the centre of the picture. *)
Definition center_to_center (img : Image) : Prop :=
  rescale_x img network_center == inject_Z (Zpos (width img)) / 2 /\
  rescale_y img network_center == inject_Z (Zpos (height img)) / 2.

(** The drawn box has the coordinates the network gave. *)
Definition unchanged (img : Image) (d : Detection) : Prop :=
  box_x (bounding_box img d) == x1 d /\
  box_y (bounding_box img d) == y1 d /\
  box_width (bounding_box img d) == x2 d - x1 d /\
  box_height (bounding_box img d) == y2 d - y1 d.

(** The drawn box is the network's box stretched by [k] on both axes. *)
Definition stretched (k : Q) (img : Image) (d : Detection) : Prop :=
  box_x (bounding_box img d) == x1 d * k /\
  box_y (bounding_box img d) == y1 d * k /\
  box_width (bounding_box img d) == (x2 d - x1 d) * k /\
  box_height (bounding_box img d) == (y2 d - y1 d) * k.

(** A detection with the given corners, of class 0 and full confidence. *)
Definition corners (a b c d : Q) : Detection := mkDetection a b c d 1 1 0.

(** ** A small environment to run the notebook in

    The theorems below hold for every environment.  To evaluate the
    notebook on concrete inputs one is fixed here: a machine without GPU,
    the class catalog of [coco.names], and a miniature detector whose
    parameters are read as candidate rows, seven numbers each. *)

Definition coco_names : list string :=
  [ "person"; "bicycle"; "car"; "motorbike"; "aeroplane"; "bus"; "train";
    "truck"; "boat"; "traffic light"; "fire hydrant"; "stop sign";
    "parking meter"; "bench"; "bird"; "cat"; "dog"; "horse"; "sheep"; "cow";
    "elephant"; "bear"; "zebra"; "giraffe"; "backpack"; "umbrella";
    "handbag"; "tie"; "suitcase"; "frisbee"; "skis"; "snowboard";
    "sports ball"; "kite"; "baseball bat"; "baseball glove"; "skateboard";
    "surfboard"; "tennis racket"; "bottle"; "wine glass"; "cup"; "fork";
    "knife"; "spoon"; "bowl"; "banana"; "apple"; "sandwich"; "orange";
    "broccoli"; "carrot"; "hot dog"; "pizza"; "donut"; "cake"; "chair";
    "sofa"; "pottedplant"; "bed"; "diningtable"; "toilet"; "tvmonitor";
    "laptop"; "mouse"; "remote"; "keyboard"; "cell phone"; "microwave";
    "oven"; "toaster"; "sink"; "refrigerator"; "book"; "clock"; "vase";
    "scissors"; "teddy bear"; "hair drier"; "toothbrush" ]%string.

(** Seven numbers at a time. *)
Fixpoint rows_of (fuel : nat) (l : list Q) : list (list Q) :=
  match fuel, l with
  | S fuel', a :: b :: c :: d :: e :: f :: g :: rest =>
      [a; b; c; d; e; f; g] :: rows_of fuel' rest
  | _, _ => []
  end.

Definition row_detection (r : list Q) : option Detection :=
  match r with
  | [a; b; c; d; e; f; g] => Some (mkDetection a b c d e f (Z.to_nat (Py.int g)))
  | _ => None
  end.

(** The miniature forward pass: one set of candidate rows per picture of
    the batch.  In training mode it also shifts the parameters, as batch
    normalisation updates its running statistics; in evaluation mode it
    leaves the module alone. *)
Definition mini_forward (m : Darknet) (x : Tensor) : Predictions * Darknet :=
  (map (fun _ => rows_of (length (parameters m)) (parameters m)) x,
   if training m
   then mkDarknet (map (Qplus 1) (parameters m)) true (device m)
   else m).

(** The miniature suppression keeps the rows of sufficient confidence and
    yields None for a picture without any. *)
Definition mini_suppression (p : Predictions) (conf_thres nms_thres : Q)
  : list (option (list Detection)) :=
  map (fun rows =>
         match List.filter (fun d => Qle_bool conf_thres (conf d))
                           (omap row_detection rows) with
         | [] => None
         | kept => Some kept
         end) p.

(** Parameters holding [n] candidate rows, one per class from [first] on,
    all of confidence [c]. *)
Definition candidates (first n : nat) (c : Q) : list Q :=
  flat_map (fun k => [10; 10; 60; 60; c; c; inject_Z (Z.of_nat k)]) (seq first n).

Definition mini (params : list Q) : Environment :=
  mkEnvironment false params mini_forward mini_suppression coco_names remove_dups.

(** A generator that always draws zero. *)
Definition zeros : Rng := mkRng (fun _ _ => (O, O)) O.

(** The world right after the cell that loads the model. *)
Definition start `{Environment} : World := mkWorld load_model zeros.

(** Twenty-one detections, one per class 0 to 20. *)
Definition crowd : list Detection :=
  map (fun k => mkDetection 10 10 60 60 1 1 k) (seq 0 21).

(** Two birds and a cat, with class indices 14, 14 and 15. *)
Definition birds_and_cat : list Detection :=
  [ mkDetection 60 80 120 140 1 (9 # 10) 14;
    mkDetection 200 90 260 150 1 (9 # 10) 14;
    mkDetection 100 200 300 330 1 (95 # 100) 15 ].

(** The two detections the miniature detector returns from
    [candidates 14 2 1]. *)
Definition bird_and_cat : list Detection :=
  [ mkDetection 10 10 60 60 1 1 14; mkDetection 10 10 60 60 1 1 15 ].

(** ** Further readings of pictures and traces *)

(** The (left, top, right, bottom) padding a picture carries outermost. *)
Definition padding (p : Picture) : Z * Z * Z * Z :=
  match p with
  | Pad l t r b _ _ => (l, t, r, b)
  | _ => (0, 0, 0, 0)%Z
  end.

(** The text labels drawn, in drawing order: anchor, text and background. *)
Fixpoint captions (t : list Event) : list (Q * Q * Label * Color) :=
  match t with
  | [] => []
  | Text x y s c :: rest => (x, y, s, c) :: captions rest
  | _ :: rest => captions rest
  end.

(** A cat, and something of a class the catalog does not hold. *)
Definition cat_and_stranger : list Detection :=
  [ mkDetection 100 200 300 330 1 (95 # 100) 15;
    mkDetection 60 80 120 140 1 (9 # 10) 80;
    mkDetection 200 90 260 150 1 (9 # 10) 14 ].

(** The rectangle [bc] and the label [cap] are what the loop body draws
    for [d]: the rescaled box in one of the sampled colours, and at its
    corner, on the same colour, the catalog name of the class with the
    class confidence. *)
Definition rendered (classes : list string) (cols : list Color) (img : Image)
    (d : Detection) (bc : Box * Color) (cap : Q * Q * Label * Color) : Prop :=
  bc.1 = bounding_box img d /\ bc.2 ∈ cols /\
  cap = (box_x bc.1, box_y bc.1,
         mkLabel (label_class cap.1.2) (cls_conf d), bc.2) /\
  classes !! cls_pred d = Some (label_class cap.1.2).

(** A detector that finds its candidates only in a square input: for any
    other shape of the batch it returns no row. *)
Definition fussy_forward (m : Darknet) (x : Tensor) : Predictions * Darknet :=
  (map (fun p => if (pic_height p =? pic_width p)%Z
                 then rows_of (length (parameters m)) (parameters m)
                 else []) x,
   m).

Definition fussy (params : list Q) : Environment :=
  mkEnvironment false params fussy_forward mini_suppression coco_names remove_dups.

(** With the model standing at [m], the picture [img] goes through the
    transforms and the detector finds in it detections that
    [show_objects] can draw: at most as many classes as there are colours,
    all of them in the catalog. *)
Definition drawable `{Environment} (m : Darknet) (img : Image) : Prop :=
  accepted img /\
  exists (dets : list Detection) (rest : list (option (list Detection))),
    non_max_suppression
      (forward (prepared m) (unsqueeze_ (img_transforms img))).1 (8 # 10) (4 # 10)
    = Some dets :: rest /\
    (length (unique (map cls_pred dets)) <= length colors)%nat /\
    forall d, d ∈ dets -> (cls_pred d < length load_classes)%nat.

(** * Properties *)

(** ** The rescaling arithmetic *)

Section Rescaling.

Variable img : Image.

Lemma max_tuple_shape :
  (shape0 img <= Py.max_tuple (shape img))%Z /\
  (shape1 img <= Py.max_tuple (shape img))%Z.
Proof.
  unfold shape, shape0, shape1, Py.max_tuple.
  destruct (bands img =? 1)%positive; cbn [fold_left]; lia.
Qed.

Lemma max_tuple_shape_pos : (0 < Py.max_tuple (shape img))%Z.
Proof. pose proof max_tuple_shape. unfold shape0 in *. lia. Qed.

(** A pad of [a] pixels out of a longest side [m] stays below
    [img_size] once scaled. *)
Lemma scaled_pad_bounds (a m : Z) :
  (0 <= a < m)%Z ->
  0 <= inject_Z a * Py.truediv img_size m /\
  inject_Z a * Py.truediv img_size m < inject_Z img_size.
Proof.
  intros [Ha Hm]. unfold Py.truediv.
  assert (Hm0 : 0 < inject_Z m) by (change 0 with (inject_Z 0); rewrite <- Zlt_Qlt; lia).
  assert (Hne : ~ inject_Z m == 0) by (intros E; rewrite E in Hm0; discriminate).
  assert (Ha0 : 0 <= inject_Z a) by (change 0 with (inject_Z 0); rewrite <- Zle_Qle; lia).
  split.
  - apply Qmult_le_0_compat; [exact Ha0|].
    apply Qle_shift_div_l; [exact Hm0|]. rewrite Qmult_0_l.
    change 0 with (inject_Z 0). rewrite <- Zle_Qle. unfold img_size. lia.
  - setoid_replace (inject_Z a * (inject_Z img_size / inject_Z m))
      with ((inject_Z a * inject_Z img_size) / inject_Z m)
      using relation Qeq by (field; exact Hne).
    apply Qlt_shift_div_r; [exact Hm0|].
    rewrite <- !inject_Z_mult, <- Zlt_Qlt. unfold img_size. nia.
Qed.

Lemma pad_x_bounds : 0 <= pad_x img /\ pad_x img < inject_Z img_size.
Proof.
  unfold pad_x. apply scaled_pad_bounds.
  pose proof max_tuple_shape. unfold shape0, shape1 in *. lia.
Qed.

Lemma pad_y_bounds : 0 <= pad_y img /\ pad_y img < inject_Z img_size.
Proof.
  unfold pad_y. apply scaled_pad_bounds.
  pose proof max_tuple_shape. unfold shape0, shape1 in *. lia.
Qed.

Lemma unpad_w_pos : 0 < unpad_w img.
Proof. unfold unpad_w. pose proof pad_x_bounds. lra. Qed.

Lemma unpad_h_pos : 0 < unpad_h img.
Proof. unfold unpad_h. pose proof pad_y_bounds. lra. Qed.

End Rescaling.

Section Center.

(** One axis of the rescaling at the centre of network space: what the
    floor division drops from [pad / 2] is what moves the result off
    the middle of the side. *)
Lemma center_axis (pad side : Q) :
  pad < inject_Z img_size ->
  ((network_center - Py.floordiv pad 2) / (inject_Z img_size - pad)) * side
  == side / 2 + dropped pad * (side / (inject_Z img_size - pad)).
Proof.
  intros Hp. unfold dropped, network_center.
  generalize (Py.floordiv pad 2). intros f.
  field. lra.
Qed.

Lemma off_center_axis (pad side : Q) :
  pad < inject_Z img_size -> 0 < side ->
  (side / 2 + dropped pad * (side / (inject_Z img_size - pad)) == side / 2
   <-> dropped pad == 0).
Proof.
  intros Hp Hs.
  assert (Hk : 0 < side / (inject_Z img_size - pad))
    by (apply Qlt_shift_div_l; lra).
  generalize dependent (side / (inject_Z img_size - pad)). intros k Hk.
  split; intros E.
  - assert (E' : dropped pad * k == 0) by lra.
    apply Qmult_integral in E'. destruct E' as [E'|E']; [exact E'|lra].
  - rewrite E. lra.
Qed.

End Center.

(** C1, as the code has it.  For every picture (square or not) the
    detection at the centre of network space, (img_size/2, img_size/2), is
    drawn at (width/2 + ex, height/2 + ey), where ex and ey are the part
    of pad_x/2 and pad_y/2 that the floor division [pad // 2] drops, scaled
    by width/unpad_w and height/unpad_h.  It is the exact centre of the
    picture exactly when pad_x/2 and pad_y/2 are whole numbers. *)
Theorem center_rescale_up_to_floor (img : Image) :
  rescale_x img network_center
    == inject_Z (Zpos (width img)) / 2
       + dropped (pad_x img) * (inject_Z (Zpos (width img)) / unpad_w img) /\
  rescale_y img network_center
    == inject_Z (Zpos (height img)) / 2
       + dropped (pad_y img) * (inject_Z (Zpos (height img)) / unpad_h img) /\
  (center_to_center img <-> dropped (pad_x img) == 0 /\ dropped (pad_y img) == 0).
Proof.
  pose proof (pad_x_bounds img) as [_ Hx].
  pose proof (pad_y_bounds img) as [_ Hy].
  assert (Ex := center_axis (pad_x img) (inject_Z (Zpos (width img))) Hx).
  assert (Ey := center_axis (pad_y img) (inject_Z (Zpos (height img))) Hy).
  assert (Hw : 0 < inject_Z (Zpos (width img))) by reflexivity.
  assert (Hh : 0 < inject_Z (Zpos (height img))) by reflexivity.
  split; [exact Ex|]. split; [exact Ey|].
  unfold center_to_center, rescale_x, rescale_y, unpad_w, unpad_h, shape0, shape1.
  rewrite Ex, Ey.
  rewrite (off_center_axis _ _ Hx Hw), (off_center_axis _ _ Hy Hh).
  reflexivity.
Qed.

(** A 375 x 500 picture: pad_x = 104, an even number, and the centre is
    hit exactly. *)
Example center_exact_375x500 : center_to_center (blank 375 500).
Proof. split; vm_compute; reflexivity. Qed.

(** C1 fails as stated.  On a 333 x 500 picture pad_x = 138.944, the floor
    division keeps 69 of its half 69.472, and the centre of network space
    is drawn at x = 167.067..., not at 166.5. *)
Lemma center_rescale_not_exact :
  ~ (forall img : Image, width img <> height img -> center_to_center img).
Proof.
  intros H.
  destruct (H (blank 333 500) ltac:(discriminate)) as [Hx _].
  vm_compute in Hx. discriminate Hx.
Qed.

Example center_333x500 :
  rescale_x (blank 333 500) network_center == 1928625 # 11544.
Proof. vm_compute. reflexivity. Qed.

Section Square.

Variable img : Image.
Hypothesis square : width img = height img.

Lemma square_pad_x : pad_x img == 0.
Proof.
  unfold pad_x, shape0, shape1. rewrite square, Z.sub_diag.
  change (Z.max 0 0) with 0%Z. apply Qmult_0_l.
Qed.

Lemma square_pad_y : pad_y img == 0.
Proof.
  unfold pad_y, shape0, shape1. rewrite square, Z.sub_diag.
  change (Z.max 0 0) with 0%Z. apply Qmult_0_l.
Qed.

Lemma square_floordiv_x : Py.floordiv (pad_x img) 2 == 0.
Proof. unfold Py.floordiv. rewrite square_pad_x. reflexivity. Qed.

Lemma square_floordiv_y : Py.floordiv (pad_y img) 2 == 0.
Proof. unfold Py.floordiv. rewrite square_pad_y. reflexivity. Qed.

End Square.

(** C2, as the code has it.  For every square picture pad_x = pad_y = 0,
    and the drawn box is the network-space box multiplied by
    side / img_size on both axes: the division by unpad = img_size and the
    multiplication by the side of the picture remain.  The coordinates are
    unchanged when the side is img_size. *)
Theorem square_no_padding_only_scaling (img : Image) :
  width img = height img ->
  pad_x img == 0 /\ pad_y img == 0 /\
  (forall d : Detection,
     stretched (inject_Z (Zpos (width img)) / inject_Z img_size) img d) /\
  (Zpos (width img) = img_size -> forall d : Detection, unchanged img d).
Proof.
  intros Hsq.
  pose proof (square_pad_x img Hsq) as Px.
  pose proof (square_pad_y img Hsq) as Py.
  pose proof (square_floordiv_x img Hsq) as Fx.
  pose proof (square_floordiv_y img Hsq) as Fy.
  assert (St : forall d, stretched (inject_Z (Zpos (width img)) / inject_Z img_size) img d).
  { intros d. unfold stretched, bounding_box, box_x, box_y, box_width, box_height,
      rescale_x, rescale_y, box_w, box_h, unpad_w, unpad_h, shape0, shape1.
    rewrite Fx, Fy, Px, Py, <- Hsq. unfold img_size.
    repeat split; field. }
  split; [exact Px|]. split; [exact Py|]. split; [exact St|].
  intros Hside d. destruct (St d) as (E1 & E2 & E3 & E4).
  unfold unchanged. rewrite E1, E2, E3, E4, Hside. unfold img_size.
  repeat split; field.
Qed.

Lemma square_no_padding_only_scaling_witness :
  pad_x (blank 416 416) == 0 /\ pad_y (blank 416 416) == 0 /\
  (forall d : Detection, stretched (inject_Z 416 / inject_Z img_size) (blank 416 416) d) /\
  (forall d : Detection, unchanged (blank 416 416) d).
Proof.
  destruct (square_no_padding_only_scaling (blank 416 416) eq_refl)
    as (Px & Py & St & Un).
  split; [exact Px|]. split; [exact Py|]. split; [exact St|].
  apply Un. reflexivity.
Defined.

(** C2 fails as stated.  On an 832 x 832 picture the padding is zero, yet
    the corner x1 = 100 of network space is drawn at x = 200. *)
Lemma square_coordinates_not_unchanged :
  ~ (forall img : Image, width img = height img ->
       pad_x img == 0 /\ pad_y img == 0 /\ forall d : Detection, unchanged img d).
Proof.
  intros H.
  destruct (H (blank 832 832) eq_refl) as (_ & _ & Hd).
  destruct (Hd (corners 100 100 300 300)) as (Hx & _).
  vm_compute in Hx. discriminate Hx.
Qed.

Example square_832_doubles :
  box_x (bounding_box (blank 832 832) (corners 100 100 300 300)) == 200.
Proof. vm_compute. reflexivity. Qed.

Section Bounds.

(** One axis of a drawn box: anchor [(a - p) / u * s] and extent
    [(b - a) / u * s], for a positive [u] and a positive side [s]. *)
Lemma axis_within (a b p u s : Q) :
  0 < u -> 0 < s ->
  (0 <= ((a - p) / u) * s /\ ((a - p) / u) * s + ((b - a) / u) * s <= s
   <-> p <= a /\ b <= p + u).
Proof.
  intros Hu Hs.
  assert (Hk : 0 < s / u) by (apply Qlt_shift_div_l; lra).
  assert (E1 : ((a - p) / u) * s == (a - p) * (s / u)) by (field; lra).
  assert (E2 : ((a - p) / u) * s + ((b - a) / u) * s == (b - p) * (s / u))
    by (field; lra).
  assert (E3 : s == u * (s / u)) by (field; lra).
  rewrite E2, E1. rewrite E3 at 3.
  generalize dependent (s / u). intros k Hk _ _ _.
  split.
  - intros [H1 H2]. split.
    + assert (0 <= a - p); [|lra].
      apply (Qmult_le_r _ _ k Hk). lra.
    + assert (b - p <= u); [|lra].
      apply (Qmult_le_r _ _ k Hk). lra.
  - intros [H1 H2]. split.
    + apply Qmult_le_0_compat; lra.
    + apply (Qmult_le_r _ _ k Hk). lra.
Qed.

End Bounds.

(** C7, as the code has it.  [show_objects] clips nothing: the box it
    draws lies within the picture exactly when the network-space box lies
    within the region the picture occupies there, from pad // 2 to
    pad // 2 + unpad on each axis. *)
Theorem box_within_image_iff (img : Image) (d : Detection) :
  within_image img (bounding_box img d) <-> within_unpadded img d.
Proof.
  pose proof (unpad_w_pos img) as Hw.
  pose proof (unpad_h_pos img) as Hh.
  assert (Sw : 0 < inject_Z (Zpos (width img))) by reflexivity.
  assert (Sh : 0 < inject_Z (Zpos (height img))) by reflexivity.
  pose proof (axis_within (x1 d) (x2 d) (Py.floordiv (pad_x img) 2) _ _ Hw Sw) as Ax.
  pose proof (axis_within (y1 d) (y2 d) (Py.floordiv (pad_y img) 2) _ _ Hh Sh) as Ay.
  unfold within_image, within_unpadded, bounding_box, box_x, box_y,
    box_width, box_height, rescale_x, rescale_y, box_w, box_h, shape0, shape1.
  tauto.
Qed.

(** C7 fails as stated.  On a 500 x 375 picture the rows 0 to 51 of
    network space are padding; a box whose top edge is at y1 = 40 is drawn
    with its top above the picture, at y = -14.4... *)
Lemma box_not_always_within_image :
  ~ (forall (img : Image) (d : Detection), within_image img (bounding_box img d)).
Proof.
  intros H.
  destruct (H (blank 500 375) (corners 100 40 200 200)) as (_ & _ & Hy & _).
  vm_compute in Hy. apply Hy. reflexivity.
Qed.

(** ** Sampling colours and drawing boxes *)

Section Sampling.

Context {A : Type}.

(** Overwriting position [j] with [y] trades the element that was there
    for [y]. *)
Lemma insert_swaps (l : list A) (j : nat) (x y : A) :
  l !! j = Some x -> x :: <[j := y]> l ≡ₚ y :: l.
Proof.
  revert j. induction l as [|a l IH]; intros [|j] Hj; simplify_eq/=.
  - apply Permutation_swap.
  - rewrite (Permutation_swap a x), (IH j Hj). apply Permutation_swap.
Qed.

Lemma sample_loop_spec (n : nat) (todo : nat) :
  forall (g : Rng) (pool : list A) (i : nat),
    length pool = n -> (i + todo <= n)%nat ->
    length (sample_loop g pool n i todo).1 = todo /\
    exists rest, (sample_loop g pool n i todo).1 ++ rest ≡ₚ take (n - i) pool.
Proof.
  induction todo as [|todo IH]; intros g pool i Hlen Hle.
  - split; [reflexivity|]. exists (take (n - i) pool). reflexivity.
  - cbn [sample_loop]. unfold randbelow.
    destruct (raw g (pos g) (n - i)) as [r rejected].
    set (j := (r mod (n - i))%nat).
    assert (Hj : (j < n - i)%nat) by (apply Nat.mod_upper_bound; lia).
    destruct (lookup_lt_is_Some_2 pool j ltac:(lia)) as [x Hx].
    destruct (lookup_lt_is_Some_2 pool (n - i - 1) ltac:(lia)) as [y Hy].
    rewrite Hx, Hy.
    specialize (IH (mkRng (raw g) (pos g + S rejected)) (<[j := y]> pool) (S i)).
    rewrite length_insert in IH. specialize (IH Hlen ltac:(lia)).
    destruct (sample_loop _ (<[j := y]> pool) n (S i) todo) as [res g2].
    cbn [fst] in *. destruct IH as [IHlen [rest IHperm]].
    split; [cbn; lia|].
    exists rest. cbn [app].
    rewrite IHperm.
    replace (n - i)%nat with (S (n - S i)) by lia.
    replace (n - i - 1)%nat with (n - S i)%nat in Hy by lia.
    rewrite (take_S_r _ _ _ Hy).
    destruct (decide (j = n - S i)%nat) as [->|Hne].
    + rewrite take_insert_ge by lia. simplify_eq.
      rewrite Permutation_app_comm. reflexivity.
    + rewrite take_insert_lt by lia.
      rewrite insert_swaps.
      * rewrite Permutation_app_comm. reflexivity.
      * rewrite lookup_take_lt by lia. exact Hx.
Qed.

End Sampling.

Section SamplingResults.

Context {A : Type}.

Lemma random_sample_ok (population : list A) (k : nat) (g : Rng) :
  (k <= length population)%nat ->
  exists res g', random_sample population k g = (inr res, g') /\
    length res = k /\ res ⊆ population /\ (NoDup population -> NoDup res).
Proof.
  intros Hk. unfold random_sample.
  destruct (Nat.leb_spec k (length population)) as [_|]; [|lia].
  destruct (sample_loop_spec (length population) k g population 0 eq_refl ltac:(lia))
    as [Hlen [rest Hperm]].
  destruct (sample_loop g population (length population) 0 k) as [res g'].
  cbn [fst] in *. exists res, g'.
  rewrite Nat.sub_0_r, firstn_all in Hperm.
  split; [reflexivity|]. split; [exact Hlen|]. split.
  - intros c Hc. rewrite <- Hperm. apply elem_of_app. left. exact Hc.
  - intros Hnd. rewrite <- Hperm in Hnd. apply NoDup_app in Hnd. tauto.
Qed.

Lemma random_sample_too_many (population : list A) (k : nat) (g : Rng) :
  (length population < k)%nat ->
  random_sample population k g = (inl Py.ValueError, g).
Proof.
  intros Hk. unfold random_sample.
  destruct (Nat.leb_spec k (length population)); [lia|reflexivity].
Qed.

End SamplingResults.

Lemma colors_tab20b : colors = tab20b.
Proof. vm_compute. reflexivity. Qed.

Lemma colors_length : length colors = 20%nat.
Proof. rewrite colors_tab20b. reflexivity. Qed.

Lemma colors_NoDup : NoDup colors.
Proof.
  rewrite colors_tab20b. apply (bool_decide_unpack _). vm_compute. reflexivity.
Qed.

Section Positions.

Lemma where_eq_absent (labels : list nat) (c from : nat) :
  c ∉ labels -> where_eq labels c from = [].
Proof.
  revert from. induction labels as [|l labels IH]; intros from Hc; [reflexivity|].
  cbn [where_eq]. apply not_elem_of_cons in Hc as [Hne Hc].
  destruct (Nat.eqb_spec l c); [congruence|]. apply IH, Hc.
Qed.

Lemma where_eq_single (labels : list nat) (c from k : nat) :
  NoDup labels -> labels !! k = Some c ->
  where_eq labels c from = [(from + k)%nat].
Proof.
  revert from k. induction labels as [|l labels IH]; intros from k Hnd Hk.
  - discriminate.
  - apply NoDup_cons in Hnd as [Hl Hnd]. cbn [where_eq]. destruct k as [|k].
    + simplify_eq/=. rewrite Nat.eqb_refl, where_eq_absent by exact Hl.
      f_equal. lia.
    + cbn in Hk. destruct (Nat.eqb_spec l c) as [->|_].
      * exfalso. apply Hl. eapply list_elem_of_lookup_2, Hk.
      * rewrite (IH (S from) k Hnd Hk). f_equal. lia.
Qed.

End Positions.

Section Traces.

Lemma rectangles_app (s t : list Event) :
  rectangles (s ++ t) = rectangles s ++ rectangles t.
Proof.
  induction s as [|e s IH]; [reflexivity|].
  destruct e; cbn; rewrite ?IH; reflexivity.
Qed.

Lemma printed_app (s t : list Event) :
  printed (s ++ t) = printed s ++ printed t.
Proof.
  induction s as [|e s IH]; [reflexivity|].
  destruct e; cbn; rewrite ?IH; reflexivity.
Qed.

Lemma shown_app (s t : list Event) :
  shown (s ++ t) = (shown s + shown t)%nat.
Proof.
  induction s as [|e s IH]; [reflexivity|].
  destruct e; cbn; rewrite ?IH; reflexivity.
Qed.

End Traces.

Section Drawing.

Variables (classes : list string) (labels : list nat) (cols : list Color).
Variable img : Image.

Hypothesis labels_NoDup : NoDup labels.
Hypothesis enough_colors : (length labels <= length cols)%nat.

Lemma draw_detection_unknown (d : Detection) (w : World) :
  classes !! cls_pred d = None ->
  draw_detection classes labels cols img d w = mkResult (inl Py.IndexError) w [].
Proof.
  intros Hc. unfold draw_detection, bind, getitem. rewrite Hc. reflexivity.
Qed.

Lemma draw_detection_known (d : Detection) (w : World) (name : string) :
  classes !! cls_pred d = Some name ->
  cls_pred d ∈ labels ->
  exists bc, painted labels cols img d bc /\
    draw_detection classes labels cols img d w
    = mkResult (inr tt) w
        [AddPatch bc.1 bc.2;
         Text (box_x bc.1) (box_y bc.1) (mkLabel name (cls_conf d)) bc.2].
Proof.
  intros Hc Hin.
  apply list_elem_of_lookup_1 in Hin as [k Hk].
  destruct (lookup_lt_is_Some_2 cols k) as [col Hcol].
  { apply lookup_lt_Some in Hk. lia. }
  exists (bounding_box img d, col). split.
  - split; [reflexivity|]. exists k. split; assumption.
  - unfold draw_detection, bind, getitem. rewrite Hc. cbn.
    rewrite (where_eq_single labels _ 0 k labels_NoDup Hk). cbn.
    rewrite Hcol. reflexivity.
Qed.

(** The loop over the detections draws one rectangle per detection, in
    order, until a class index falls outside the catalog. *)
Lemma draw_loop (dets : list Detection) (w : World) :
  (forall d, d ∈ dets -> cls_pred d ∈ labels) ->
  let r := for_each dets (draw_detection classes labels cols img) w in
  final r = w /\ shown (trace r) = O /\ printed (trace r) = [] /\
  exists m : nat,
    Forall2 (painted labels cols img) (take m dets) (rectangles (trace r)) /\
    ((value r = inr tt /\ m = length dets) \/
     (value r = inl Py.IndexError /\
      exists d, dets !! m = Some d /\ classes !! cls_pred d = None)).
Proof.
  induction dets as [|d dets IH]; intros Hin; cbn zeta.
  - repeat split. exists O. split; [constructor|]. left. split; reflexivity.
  - cbn [for_each]. unfold bind.
    destruct (classes !! cls_pred d) as [name|] eqn:Hc.
    + destruct (draw_detection_known d w name Hc) as [bc [Hp Hr]].
      { apply Hin. left. }
      rewrite Hr. cbn [value final trace app shown printed rectangles].
      destruct IH as (Hf & Hs & Hpr & m & Hall & Hv).
      { intros d' Hd'. apply Hin. right. exact Hd'. }
      split; [exact Hf|]. split; [exact Hs|]. split; [exact Hpr|].
      exists (S m). split.
      * cbn. constructor; [|exact Hall]. destruct bc; exact Hp.
      * destruct Hv as [[Hv ->]|[Hv [d' [Hd' Hn]]]].
        -- left. split; [exact Hv|reflexivity].
        -- right. split; [exact Hv|]. exists d'. split; assumption.
    + rewrite (draw_detection_unknown d w Hc). cbn [value final trace].
      repeat split. exists O. split; [constructor|].
      right. split; [reflexivity|]. exists d. split; [reflexivity|exact Hc].
Qed.

End Drawing.

Lemma world_eta (w : World) : mkWorld (model w) (gen w) = w.
Proof. destruct w. reflexivity. Qed.

Section ShowObjects.

Context `{Environment}.
Hypothesis unique_ok : unique_lawful.

Variable img : Image.
Variable dets : list Detection.
Variable w : World.

Local Abbreviation labels := (unique (map cls_pred dets)).

Lemma show_objects_too_many_classes :
  (length colors < length labels)%nat ->
  show_objects img (Some dets) w
  = mkResult (inl Py.ValueError) w [Figure; Subplots; Imshow img].
Proof.
  intros Hk. unfold show_objects, bind, emit, on_gen. cbn -[colors random_sample].
  rewrite (random_sample_too_many colors _ _ Hk). cbn.
  rewrite world_eta. reflexivity.
Qed.

Lemma show_objects_enough_colors :
  (length labels <= length colors)%nat ->
  let r := show_objects img (Some dets) w in
  exists (cols : list Color) (g' : Rng),
    random_sample colors (length labels) (gen w) = (inr cols, g') /\
    length cols = length labels /\ NoDup cols /\
    final r = mkWorld (model w) g' /\ printed (trace r) = [] /\
    exists m : nat,
      Forall2 (painted labels cols img) (take m dets) (rectangles (trace r)) /\
      ((value r = inr tt /\ m = length dets /\ shown (trace r) = 1%nat) \/
       (value r = inl Py.IndexError /\ shown (trace r) = O /\
        exists d, dets !! m = Some d /\ load_classes !! cls_pred d = None)).
Proof.
  intros Hk r.
  destruct (random_sample_ok colors (length labels) (gen w) Hk)
    as (cols & g' & Hs & Hlen & _ & Hnd).
  specialize (Hnd colors_NoDup).
  exists cols, g'. split; [exact Hs|]. split; [exact Hlen|]. split; [exact Hnd|].
  destruct (unique_ok (map cls_pred dets)) as [Und Uin].
  pose proof (draw_loop load_classes labels cols img Und ltac:(lia) dets
                (mkWorld (model w) g')) as Hloop.
  cbn zeta in Hloop.
  destruct Hloop as (Hf & Hsh & Hpr & m & Hall & Hv).
  { intros d Hd. apply Uin. apply list_elem_of_fmap. exists d. split; [reflexivity|exact Hd]. }
  subst r. unfold show_objects, bind, emit, on_gen. cbn -[colors random_sample].
  rewrite Hs. cbn.
  destruct Hv as [[Hv Hm]|[Hv Hd]]; rewrite Hv; cbn.
  - rewrite Hf, !printed_app, !shown_app, !rectangles_app, Hpr, Hsh. cbn.
    rewrite app_nil_r.
    repeat split. exists m. split; [exact Hall|]. left. repeat split. exact Hm.
  - rewrite Hf, Hpr, Hsh.
    repeat split. exists m. split; [exact Hall|]. right. repeat split. exact Hd.
Qed.

End ShowObjects.

(** ** The detector and the loop *)

Section Detecting.

Context `{Environment}.

Lemma prepared_idempotent (m : Darknet) : prepared (prepared m) = prepared m.
Proof. unfold prepared. destruct cuda_is_available; reflexivity. Qed.

Lemma prepared_training (m : Darknet) : training (prepared m) = false.
Proof. reflexivity. Qed.

(** The transforms return the letterboxed picture for an accepted
    picture and raise ValueError for any other. *)
Lemma image_tensor_accepted (img : Image) :
  accepted img -> image_tensor img = inr (unsqueeze_ (img_transforms img)).
Proof.
  intros (Hh & Hw & Hb). unfold image_tensor, apply_Resize, apply_Pad.
  destruct (Z.ltb_spec 0 (imh img)); [|lia].
  destruct (Z.ltb_spec 0 (imw img)); [|lia].
  cbn [andb pic_bands]. rewrite Hb. reflexivity.
Qed.

Lemma image_tensor_rejected (img : Image) :
  ~ accepted img -> image_tensor img = inl Py.ValueError.
Proof.
  intros Hno. unfold image_tensor, apply_Resize, apply_Pad.
  destruct (Z.ltb_spec 0 (imh img)); [|reflexivity].
  destruct (Z.ltb_spec 0 (imw img)); [|reflexivity].
  cbn [andb pic_bands].
  destruct (Pos.eqb_spec (bands img) 3%positive) as [Hb|_]; [|reflexivity].
  exfalso. apply Hno. repeat split; assumption.
Qed.

Lemma accepted_dec (img : Image) : accepted img \/ ~ accepted img.
Proof.
  unfold accepted.
  destruct (Z_lt_dec 0 (imh img)); [|right; tauto].
  destruct (Z_lt_dec 0 (imw img)); [|right; tauto].
  destruct (Pos.eq_dec (bands img) 3%positive); [left|right]; tauto.
Qed.

Lemma detect_objects_run (img : Image) (w : World) :
  detect_objects img w
  = match image_tensor img with
    | inl e => mkResult (inl e) (mkWorld (prepared (model w)) (gen w)) []
    | inr t =>
        let pm := forward (prepared (model w)) t in
        mkResult
          match non_max_suppression pm.1 (8 # 10) (4 # 10) with
          | d :: _ => inr d
          | [] => inl Py.IndexError
          end
          (mkWorld pm.2 (gen w)) []
    end.
Proof.
  unfold detect_objects, prepared, bind, on_model, getitem, ret, raise, lift.
  destruct cuda_is_available; cbn;
    destruct (image_tensor img) as [e|t]; cbn; try reflexivity;
    destruct (forward _ _) as [p m']; cbn;
    destruct (non_max_suppression p _ _); reflexivity.
Qed.

End Detecting.

Section Model.

Context `{Environment}.
Hypothesis read_only : reused_read_only.

Lemma detect_objects_model (img : Image) (w : World) :
  model (final (detect_objects img w)) = prepared (model w).
Proof.
  rewrite detect_objects_run. destruct (image_tensor img) as [e|t]; cbn.
  - reflexivity.
  - apply read_only. reflexivity.
Qed.


Lemma detect_objects_trace (img : Image) (w : World) :
  trace (detect_objects img w) = [].
Proof. rewrite detect_objects_run. destruct (image_tensor img); reflexivity. Qed.

End Model.

(** C4.  Whatever state the model is in, two calls of [detect_objects] in
    succession on the same picture return the same detections: the call
    moves the model to the device and into evaluation mode before the
    forward pass, and in that mode the forward pass leaves no mark on it. *)
Theorem detect_objects_twice `{Environment} (img : Image) (w : World) :
  reused_read_only ->
  value (detect_objects img (final (detect_objects img w)))
  = value (detect_objects img w).
Proof.
  intros Hro.
  rewrite (detect_objects_run img (final (detect_objects img w))).
  rewrite (detect_objects_model Hro), prepared_idempotent.
  rewrite (detect_objects_run img w).
  destruct (image_tensor img); reflexivity.
Qed.

Lemma mini_read_only (params : list Q) : @reused_read_only (mini params).
Proof. intros m x Ht. cbn. rewrite Ht. reflexivity. Qed.

Lemma mini_unique_lawful (params : list Q) : @unique_lawful (mini params).
Proof.
  intros l. split; [apply NoDup_remove_dups|].
  intros c. apply elem_of_remove_dups.
Qed.

Lemma detect_objects_twice_witness :
  let E := mini (candidates 14 2 1) in
  value (detect_objects (blank 500 375) (final (detect_objects (blank 500 375) start)))
  = value (detect_objects (blank 500 375) start).
Proof.
  intros E.
  apply (@detect_objects_twice E (blank 500 375) start (mini_read_only _)).
Defined.

(** C8, as the code has it.  [detect_objects] never changes the
    parameters of the model; it sets the mode flag to evaluation and, when
    a GPU is available, the device to the GPU.  A model already in that
    state is left as it is, so from the second call on the model is the
    same before and after. *)
Theorem detect_objects_prepares_model `{Environment} (img : Image) (w : World) :
  reused_read_only ->
  let m := model w in
  let m' := model (final (detect_objects img w)) in
  parameters m' = parameters m /\
  training m' = false /\
  device m' = (if cuda_is_available then Cuda else device m) /\
  (training m = false ->
   device m = (if cuda_is_available then Cuda else device m) -> m' = m) /\
  model (final (detect_objects img (final (detect_objects img w)))) = m'.
Proof.
  intros Hro m m'. subst m'.
  rewrite !(detect_objects_model Hro), prepared_idempotent. subst m.
  unfold prepared.
  destruct (model w) as [ps tr dv]. destruct cuda_is_available; cbn;
    repeat split; intros; subst; reflexivity.
Qed.

Lemma detect_objects_prepares_model_witness :
  let E := mini (candidates 14 2 1) in
  let m := model start in
  let m' := model (final (detect_objects (blank 500 375) start)) in
  parameters m' = parameters m /\
  training m' = false /\
  device m' = Cpu /\
  model (final (detect_objects (blank 500 375)
                  (final (detect_objects (blank 500 375) start)))) = m'.
Proof.
  intros E m m'.
  destruct (@detect_objects_prepares_model E (blank 500 375) start (mini_read_only _))
    as (Hp & Ht & Hd & _ & Hs).
  repeat split; assumption.
Defined.

(** C8 fails as stated.  The model comes out of the loader in training
    mode; the first call of [detect_objects] leaves it in evaluation
    mode. *)
Lemma first_call_changes_mode :
  ~ (forall (E : Environment) (img : Image) (w : World),
       @reused_read_only E ->
       model (final (@detect_objects E img w)) = model w).
Proof.
  intros Hevery.
  specialize (Hevery (mini (candidates 14 2 1)) (blank 500 375)
                (@start (mini (candidates 14 2 1))) (mini_read_only _)).
  apply (f_equal training) in Hevery. vm_compute in Hevery. discriminate Hevery.
Qed.

Section Colours.

Context `{Environment}.
Hypothesis unique_ok : unique_lawful.

Variable img : Image.
Variable dets : list Detection.

(** A rectangle at position [i] of the drawing was painted for the
    detection at position [i]. *)
Lemma painted_at (labels : list nat) (cols : list Color) (m i : nat)
    (rects : list (Box * Color)) (d : Detection) (b : Box * Color) :
  Forall2 (painted labels cols img) (take m dets) rects ->
  dets !! i = Some d -> rects !! i = Some b ->
  painted labels cols img d b.
Proof.
  intros Hall Hd Hb.
  destruct (Forall2_lookup_r _ _ _ _ _ Hall Hb) as (d' & Hd' & Hp).
  apply lookup_take_Some in Hd' as [Hd' _]. congruence.
Qed.

End Colours.

(** C6.  When the unique class labels of the detection set are no more
    than the palette holds, the rectangles drawn for two detections have
    the same edge colour exactly when the two detections have the same
    predicted class.  The colours are one sample of the palette with as
    many entries as there are unique labels in this picture, and a
    rectangle takes the entry at the position of its class among these
    labels, not at its index in the class catalog. *)
Theorem one_color_per_class_present `{Environment} (img : Image)
    (dets : list Detection) (w : World) :
  unique_lawful ->
  (length (unique (map cls_pred dets)) <= length colors)%nat ->
  let labels := unique (map cls_pred dets) in
  let rects := rectangles (trace (show_objects img (Some dets) w)) in
  (forall (i j : nat) (di dj : Detection) (bi bj : Box * Color),
     dets !! i = Some di -> dets !! j = Some dj ->
     rects !! i = Some bi -> rects !! j = Some bj ->
     (bi.2 = bj.2 <-> cls_pred di = cls_pred dj)) /\
  exists (bbox_colors : list Color) (g' : Rng),
    random_sample colors (length labels) (gen w) = (inr bbox_colors, g') /\
    length bbox_colors = length labels /\
    NoDup bbox_colors /\
    forall (i : nat) (d : Detection) (b : Box * Color),
      dets !! i = Some d -> rects !! i = Some b ->
      exists k, labels !! k = Some (cls_pred d) /\ bbox_colors !! k = Some b.2.
Proof.
  intros Hu Hk labels rects.
  destruct (show_objects_enough_colors Hu img dets w Hk)
    as (cols & g' & Hs & Hlen & Hnd & _ & _ & m & Hall & _).
  fold labels rects in Hs, Hlen, Hall.
  destruct (Hu (map cls_pred dets)) as [Und _]. fold labels in Und.
  split.
  - intros i j di dj bi bj Hdi Hdj Hbi Hbj.
    destruct (painted_at img dets _ _ _ _ _ _ _ Hall Hdi Hbi) as (_ & ki & Hli & Hci).
    destruct (painted_at img dets _ _ _ _ _ _ _ Hall Hdj Hbj) as (_ & kj & Hlj & Hcj).
    split; intros E.
    + rewrite <- E in Hcj.
      pose proof (NoDup_lookup _ _ _ _ Hnd Hci Hcj) as ->. congruence.
    + rewrite <- E in Hlj.
      pose proof (NoDup_lookup _ _ _ _ Und Hli Hlj) as ->. congruence.
  - exists cols, g'. split; [exact Hs|]. split; [exact Hlen|]. split; [exact Hnd|].
    intros i d b Hd Hb.
    destruct (painted_at img dets _ _ _ _ _ _ _ Hall Hd Hb) as (_ & k & Hl & Hc).
    exists k. split; assumption.
Qed.

Lemma one_color_per_class_present_witness :
  let E := mini [] in
  let rects := rectangles (trace (show_objects (blank 500 375) (Some birds_and_cat) start)) in
  (forall (i j : nat) (di dj : Detection) (bi bj : Box * Color),
     birds_and_cat !! i = Some di -> birds_and_cat !! j = Some dj ->
     rects !! i = Some bi -> rects !! j = Some bj ->
     (bi.2 = bj.2 <-> cls_pred di = cls_pred dj)) /\
  length rects = 3%nat.
Proof.
  intros E rects. split.
  - apply (@one_color_per_class_present E (blank 500 375) birds_and_cat start
             (mini_unique_lawful _)).
    vm_compute. lia.
  - reflexivity.
Defined.

Lemma bind_inr {A B : Type} (c : M A) (k : A -> M B) (w : World) (a : A) :
  value (c w) = inr a ->
  (x <- c ;; k x) w
  = mkResult (value (k a (final (c w)))) (final (k a (final (c w))))
             (trace (c w) ++ trace (k a (final (c w)))).
Proof. intros E. unfold bind. rewrite E. reflexivity. Qed.

Lemma bind_inl {A B : Type} (c : M A) (k : A -> M B) (w : World) (e : Py.error) :
  value (c w) = inl e ->
  (x <- c ;; k x) w = mkResult (inl e) (final (c w)) (trace (c w)).
Proof. intros E. unfold bind. rewrite E. reflexivity. Qed.

Section Counting.

Context `{Environment}.
Hypothesis unique_ok : unique_lawful.

Lemma show_objects_draws_all (img : Image) (dets : list Detection) (w : World) :
  (length (unique (map cls_pred dets)) <= length colors)%nat ->
  (forall d, d ∈ dets -> (cls_pred d < length load_classes)%nat) ->
  let r := show_objects img (Some dets) w in
  value r = inr tt /\ printed (trace r) = [] /\ shown (trace r) = 1%nat /\
  length (rectangles (trace r)) = length dets.
Proof.
  intros Hk Hcat r.
  destruct (show_objects_enough_colors unique_ok img dets w Hk)
    as (cols & g' & _ & _ & _ & _ & Hpr & m & Hall & Hv).
  fold r in Hpr, Hall, Hv.
  destruct Hv as [(Hv & Hm & Hsh)|(_ & _ & d & Hd & Hnone)].
  - split; [exact Hv|]. split; [exact Hpr|]. split; [exact Hsh|].
    apply Forall2_length in Hall. rewrite <- Hall, Hm, firstn_all. reflexivity.
  - exfalso. apply lookup_ge_None in Hnone.
    specialize (Hcat d (list_elem_of_lookup_2 _ _ _ Hd)). lia.
Qed.

Lemma process_image_run (file : string) (img : Image) (w : World)
    (dets : list Detection) :
  value (detect_objects img w) = inr (Some dets) ->
  let r := process_image (file, img) w in
  let s := show_objects img (Some dets) (final (detect_objects img w)) in
  value r = value s /\ final r = final s /\
  trace r = Print (length dets) file :: trace s.
Proof.
  intros Hd. cbn zeta. unfold process_image.
  rewrite (bind_inr _ _ _ _ Hd), detect_objects_trace.
  repeat split.
Qed.

End Counting.

(** C3, as the code has it.  When [detect_objects] returns a detection set
    with at most 20 unique class labels, all of them indices into the
    class catalog, the iteration prints the length of that set, and
    [show_objects] draws exactly that many rectangles and shows the
    figure. *)
Theorem count_printed_is_count_drawn `{Environment} (file : string) (img : Image)
    (w : World) (dets : list Detection) :
  unique_lawful ->
  value (detect_objects img w) = inr (Some dets) ->
  (length (unique (map cls_pred dets)) <= length colors)%nat ->
  (forall d, d ∈ dets -> (cls_pred d < length load_classes)%nat) ->
  let r := process_image (file, img) w in
  value r = inr tt /\
  printed (trace r) = [(length dets, file)] /\
  length (rectangles (trace r)) = length dets /\
  shown (trace r) = 1%nat.
Proof.
  intros Hu Hd Hk Hcat r.
  destruct (process_image_run file img w dets Hd) as (Hv & _ & Ht).
  destruct (show_objects_draws_all Hu img dets (final (detect_objects img w)) Hk Hcat)
    as (Sv & Sp & Ss & Sr).
  subst r. rewrite Hv, Ht. cbn [printed rectangles shown].
  rewrite Sp, Sr, Ss. repeat split. exact Sv.
Qed.

Lemma count_printed_is_count_drawn_witness :
  let E := mini (candidates 14 2 1) in
  let r := process_image ("000001.jpg"%string, blank 500 375) start in
  value r = inr tt /\
  printed (trace r) = [(2%nat, "000001.jpg"%string)] /\
  length (rectangles (trace r)) = 2%nat /\
  shown (trace r) = 1%nat.
Proof.
  intros E.
  apply (@count_printed_is_count_drawn E "000001.jpg"%string (blank 500 375) start
           bird_and_cat (mini_unique_lawful _)).
  - vm_compute. reflexivity.
  - vm_compute. lia.
  - intros d Hd. apply list_elem_of_In in Hd. cbn in Hd.
    destruct Hd as [<-|[<-|[]]]; vm_compute; lia.
Defined.

(** C3 fails as stated.  With 21 detections of 21 different classes the
    loop prints 21, and [show_objects] raises ValueError before it draws
    the first rectangle. *)
Lemma count_drawn_differs_beyond_palette :
  ~ (forall (E : Environment) (file : string) (img : Image) (w : World)
            (dets : list Detection),
       @unique_lawful E ->
       value (@detect_objects E img w) = inr (Some dets) ->
       length (rectangles (trace (@process_image E (file, img) w))) = length dets).
Proof.
  intros Hevery.
  specialize (Hevery (mini (candidates 0 21 1)) "000001.jpg"%string (blank 500 375)
                (@start (mini (candidates 0 21 1))) crowd (mini_unique_lawful _)).
  assert (Hd : value (@detect_objects (mini (candidates 0 21 1)) (blank 500 375)
                        (@start (mini (candidates 0 21 1)))) = inr (Some crowd))
    by (vm_compute; reflexivity).
  specialize (Hevery Hd). vm_compute in Hevery. discriminate Hevery.
Qed.

Example crowd_run :
  let E := mini (candidates 0 21 1) in
  let r := process_image ("000001.jpg"%string, blank 500 375) start in
  value r = inl Py.ValueError /\
  printed (trace r) = [(21%nat, "000001.jpg"%string)] /\
  rectangles (trace r) = [].
Proof. vm_compute. repeat split. Qed.

(** C9 fails on the code.  When [detect_objects] returns None, [len]
    raises TypeError: the iteration prints nothing and never reaches
    [show_objects], and the loop stops there, whatever pictures follow. *)
Theorem none_stops_the_loop `{Environment} (file : string) (img : Image)
    (rest : list (string * Image)) (w : World) :
  value (detect_objects img w) = inr None ->
  let r := process_images ((file, img) :: rest) w in
  value r = inl Py.TypeError /\ printed (trace r) = [] /\ shown (trace r) = O /\
  trace r = [].
Proof.
  intros Hd r. subst r. cbn [process_images for_each].
  assert (E : process_image (file, img) w
              = mkResult (inl Py.TypeError) (final (detect_objects img w)) []).
  { unfold process_image. rewrite (bind_inr _ _ _ _ Hd), detect_objects_trace.
    reflexivity. }
  rewrite (bind_inl _ _ _ Py.TypeError) by (rewrite E; reflexivity).
  rewrite E. repeat split.
Qed.

Lemma none_stops_the_loop_witness :
  let E := mini (candidates 14 2 (1 # 2)) in
  let r := process_images
             [("000001.jpg"%string, blank 500 375); ("000002.jpg"%string, blank 500 333)]
             start in
  value r = inl Py.TypeError /\ printed (trace r) = [] /\ shown (trace r) = O /\
  trace r = [].
Proof.
  intros E.
  apply (@none_stops_the_loop E "000001.jpg"%string (blank 500 375)
           [("000002.jpg"%string, blank 500 333)] start).
  vm_compute. reflexivity.
Defined.

(** [show_objects] itself accepts None: it shows the bare picture. *)
Example show_objects_none `{Environment} (img : Image) (w : World) :
  value (show_objects img None w) = inr tt /\
  trace (show_objects img None w) = [Figure; Subplots; Imshow img; AxisOff; Show].
Proof. split; reflexivity. Qed.

(** ** The letterbox *)

Section Rounding.

Lemma round_comp (x y : Q) : x == y -> Py.round x = Py.round y.
Proof.
  intros E. unfold Py.round. rewrite (Qfloor_comp _ _ E).
  assert (E' : x - inject_Z (Qfloor y) == y - inject_Z (Qfloor y)) by (rewrite E; reflexivity).
  rewrite (Qcompare_comp _ _ E' _ _ (Qeq_refl (1 # 2))). reflexivity.
Qed.

Lemma round_inject_Z (z : Z) : Py.round (inject_Z z) = z.
Proof.
  unfold Py.round. rewrite Qfloor_Z.
  assert (E : inject_Z z - inject_Z z == 0) by ring.
  rewrite (Qcompare_comp _ _ E _ _ (Qeq_refl (1 # 2))). reflexivity.
Qed.

Lemma round_floor_or_next (x : Q) :
  Py.round x = Qfloor x \/
  (Py.round x = (Qfloor x + 1)%Z /\ (1 # 2) <= x - inject_Z (Qfloor x)).
Proof.
  unfold Py.round.
  destruct (Qcompare_spec (x - inject_Z (Qfloor x)) (1 # 2)) as [E|L|G].
  - destruct (Z.even (Qfloor x)); [left; reflexivity|right].
    split; [reflexivity|]. rewrite E. apply Qle_refl.
  - left. reflexivity.
  - right. split; [reflexivity|]. apply Qlt_le_weak, G.
Qed.

Lemma round_bounds (x : Q) (n : Z) :
  0 <= x -> x <= inject_Z n -> (0 <= Py.round x <= n)%Z.
Proof.
  intros H0 Hn.
  assert (F0 : (0 <= Qfloor x)%Z) by (apply (Qfloor_resp_le 0 x H0)).
  assert (Fn : (Qfloor x <= n)%Z).
  { rewrite <- (Qfloor_Z n). apply Qfloor_resp_le, Hn. }
  destruct (round_floor_or_next x) as [->|[-> Hhalf]]; [lia|].
  split; [lia|].
  destruct (Z.eq_dec (Qfloor x) n) as [E|]; [|lia].
  exfalso. rewrite E in Hhalf. lra.
Qed.

Lemma int_half (z : Z) : Py.int (Py.truediv z 2) = Z.quot z 2.
Proof.
  unfold Py.int, Py.truediv. cbn. rewrite Z.mul_1_r. reflexivity.
Qed.

End Rounding.

Section Quotients.

(** Dividing a positive number by more gives less. *)
Lemma truediv_lt_iff (s a b : Z) :
  (0 < s)%Z -> (0 < a)%Z -> (0 < b)%Z ->
  (Py.truediv s b < Py.truediv s a <-> (a < b)%Z).
Proof.
  intros Hs Ha Hb. unfold Py.truediv, Qdiv.
  destruct s as [|s|s]; try discriminate.
  destruct a as [|a|a]; try discriminate.
  destruct b as [|b|b]; try discriminate.
  unfold Qlt. cbn. nia.
Qed.

Lemma truediv_lt (s a b : Z) :
  (0 < s)%Z -> (0 < a)%Z -> (0 < b)%Z ->
  Py.truediv s b < Py.truediv s a -> (a < b)%Z.
Proof. intros Hs Ha Hb. apply truediv_lt_iff; assumption. Qed.

Lemma scale_long_side (s a : Z) :
  (0 < a)%Z -> inject_Z a * Py.truediv s a == inject_Z s.
Proof.
  intros Ha. unfold Py.truediv. field.
  intros E. destruct a; try discriminate.
Qed.

Lemma scale_short_side (s a b : Z) :
  (0 <= s)%Z -> (0 < a <= b)%Z ->
  0 <= inject_Z a * Py.truediv s b /\ inject_Z a * Py.truediv s b <= inject_Z s.
Proof.
  intros Hs [Ha Hab]. unfold Py.truediv, Qdiv.
  destruct a as [|a|a]; try discriminate.
  destruct b as [|b|b]; try (exfalso; lia).
  unfold Qle. cbn. split; nia.
Qed.

End Quotients.

Section Letterbox.

Variable img : Image.

Local Abbreviation W := (Zpos (width img)).
Local Abbreviation H := (Zpos (height img)).

Lemma ratio_landscape : (H <= W)%Z -> ratio img = Py.truediv img_size W.
Proof.
  intros Hle. unfold ratio, Py.min, size. cbn [fst snd].
  destruct (Qcompare_spec (Py.truediv img_size H) (Py.truediv img_size W))
    as [_|L|_]; try reflexivity.
  exfalso. apply truediv_lt in L; [lia|reflexivity|reflexivity|reflexivity].
Qed.

Lemma ratio_portrait : (W < H)%Z -> ratio img = Py.truediv img_size H.
Proof.
  intros Hlt. unfold ratio, Py.min, size. cbn [fst snd].
  destruct (Qcompare_spec (Py.truediv img_size H) (Py.truediv img_size W))
    as [E|_|G]; try reflexivity; exfalso.
  - pose proof (proj2 (truediv_lt_iff img_size W H eq_refl eq_refl eq_refl) Hlt) as L.
    rewrite E in L. exact (Qlt_irrefl _ L).
  - apply truediv_lt in G; [lia|reflexivity|reflexivity|reflexivity].
Qed.

(** The side that decides the ratio is resized to [img_size]; the other
    one to something between 0 and [img_size]. *)
Lemma resized_sides :
  (imw img = img_size /\ (0 <= imh img <= img_size)%Z) \/
  (imh img = img_size /\ (0 <= imw img <= img_size)%Z).
Proof.
  destruct (Z_le_gt_dec H W) as [Hle|Hgt].
  - left. unfold imw, imh, size. cbn [fst snd].
    rewrite (ratio_landscape Hle). split.
    + rewrite (round_comp _ _ (scale_long_side img_size W eq_refl)).
      apply round_inject_Z.
    + apply round_bounds; apply scale_short_side; unfold img_size; lia.
  - right. unfold imw, imh, size. cbn [fst snd].
    rewrite (ratio_portrait ltac:(lia)). split.
    + rewrite (round_comp _ _ (scale_long_side img_size H eq_refl)).
      apply round_inject_Z.
    + apply round_bounds; apply scale_short_side; unfold img_size; lia.
Qed.

(** The size of what [img_transforms] hands to the network: each side is
    [img_size], less one pixel when the resized side is odd. *)
Lemma letterbox_size :
  pic_width (img_transforms img) = (img_size - (img_size - imw img) mod 2)%Z /\
  pic_height (img_transforms img) = (img_size - (img_size - imh img) mod 2)%Z.
Proof.
  unfold img_transforms. cbn [pic_width pic_height]. rewrite !int_half.
  destruct resized_sides as [[Ew Hh]|[Eh Hw]].
  - rewrite Ew in *. unfold img_size in *.
    rewrite (Z.max_r (Z.quot (imh img - 416) 2) 0)
      by (apply Z.quot_le_upper_bound; lia).
    rewrite (Z.max_l (Z.quot (416 - imh img) 2) 0) by (apply Z.quot_pos; lia).
    rewrite Z.quot_div_nonneg by lia.
    split; [reflexivity|]. pose proof (Z.div_mod (416 - imh img) 2). lia.
  - rewrite Eh in *. unfold img_size in *.
    rewrite (Z.max_r (Z.quot (imw img - 416) 2) 0)
      by (apply Z.quot_le_upper_bound; lia).
    rewrite (Z.max_l (Z.quot (416 - imw img) 2) 0) by (apply Z.quot_pos; lia).
    rewrite Z.quot_div_nonneg by lia.
    split; [|reflexivity]. pose proof (Z.div_mod (416 - imw img) 2). lia.
Qed.

End Letterbox.

(** The letterboxed picture is the [img_size] square exactly when both
    resized sides are even. *)
Lemma letterbox_square_iff (img : Image) :
  input_shape (unsqueeze_ (img_transforms img)) = [(img_size, img_size)]
  <-> Z.even (imw img) = true /\ Z.even (imh img) = true.
Proof.
  destruct (letterbox_size img) as [Ew Eh].
  unfold input_shape, unsqueeze_. cbn [map]. rewrite Ew, Eh. unfold img_size.
  rewrite !Z.even_spec.
  pose proof (Z.mod_pos_bound (416 - imw img) 2 eq_refl).
  pose proof (Z.mod_pos_bound (416 - imh img) 2 eq_refl).
  pose proof (Z.div_mod (416 - imw img) 2 ltac:(lia)).
  pose proof (Z.div_mod (416 - imh img) 2 ltac:(lia)).
  split.
  - intros E. injection E as E1 E2. split.
    + exists (208 - (416 - imw img) / 2)%Z. lia.
    + exists (208 - (416 - imh img) / 2)%Z. lia.
  - intros [[a Ha] [b Hb]].
    assert ((416 - imw img) mod 2 = 0)%Z.
    { rewrite Ha. replace (416 - 2 * a)%Z with ((208 - a) * 2)%Z by lia.
      apply Z.mod_mul. lia. }
    assert ((416 - imh img) mod 2 = 0)%Z.
    { rewrite Hb. replace (416 - 2 * b)%Z with ((208 - b) * 2)%Z by lia.
      apply Z.mod_mul. lia. }
    repeat f_equal; lia.
Qed.

(** On the pictures used below the binary64 computation yields the same
    resized sides as the exact one. *)
Example letterbox_binary64_agrees :
  (imw64 500 333, imh64 500 333) = (imw (blank 500 333), imh (blank 500 333)) /\
  (imw64 500 375, imh64 500 375) = (imw (blank 500 375), imh (blank 500 375)) /\
  (imw64 333 500, imh64 333 500) = (imw (blank 333 500), imh (blank 333 500)).
Proof. vm_compute. repeat split. Qed.

(** Where the exact product is a tie or a whole number, binary64 can fall
    just below it: a 768 x 420 picture is resized to 227 rows by binary64
    and to 228 by the exact arithmetic, and for a 360 x 270 picture
    [pad_y // 2] is 51 in binary64 and 52 in the exact arithmetic. *)
Example binary64_departs_at_ties :
  (imh64 768 420 = 227%Z /\ imh (blank 768 420) = 228%Z) /\
  (floor64 (PrimFloat.div (pad64 90 360) 2) = 51%Z /\
   Qfloor (pad_y (blank 360 270) / 2) = 52%Z).
Proof. vm_compute. repeat split. Qed.

(** C5 fails on the code.  A 500 x 333 picture is resized to 416 x 277;
    the 139 missing rows are halved to 69 above and 69 below, and the
    network input is 416 wide and 415 high. *)
Theorem letterbox_500x333_not_square :
  imw (blank 500 333) = 416%Z /\ imh (blank 500 333) = 277%Z /\
  img_transforms (blank 500 333)
  = Pad 0 69 0 69 (128, 128, 128)%Z (Resize 277 416 (Decoded (blank 500 333))) /\
  input_shape (unsqueeze_ (img_transforms (blank 500 333))) = [(415, 416)%Z].
Proof. vm_compute. repeat split. Qed.

Example letterbox_500x375_square :
  input_shape (unsqueeze_ (img_transforms (blank 500 375))) = [(416, 416)%Z].
Proof. vm_compute. reflexivity. Qed.

(** * Further properties *)

(** ** The rescaling arithmetic, continued *)

(** X1.  For every decoded picture the two pads of [show_objects] lie in
    [0, img_size) and the two unpadded extents in (0, img_size]: the
    divisions by [unpad_w] and [unpad_h] never divide by zero. *)
Theorem rescaling_divides_by_positive (img : Image) :
  0 <= pad_x img /\ pad_x img < inject_Z img_size /\
  0 <= pad_y img /\ pad_y img < inject_Z img_size /\
  0 < unpad_w img /\ unpad_w img <= inject_Z img_size /\
  0 < unpad_h img /\ unpad_h img <= inject_Z img_size.
Proof.
  pose proof (pad_x_bounds img) as [Hx0 Hx].
  pose proof (pad_y_bounds img) as [Hy0 Hy].
  unfold unpad_w, unpad_h. repeat split; lra.
Qed.

Section Orientation.

Variable img : Image.

Lemma pad_x_zero_iff : pad_x img == 0 <-> (Zpos (height img) <= Zpos (width img))%Z.
Proof.
  unfold pad_x, shape0, shape1.
  pose proof (max_tuple_shape_pos img) as Hm.
  assert (Hk : 0 < Py.truediv img_size (Py.max_tuple (shape img))).
  { unfold Py.truediv. apply Qlt_shift_div_l.
    - change 0 with (inject_Z 0). rewrite <- Zlt_Qlt. exact Hm.
    - rewrite Qmult_0_l. reflexivity. }
  generalize dependent (Py.truediv img_size (Py.max_tuple (shape img))). intros k Hk.
  split.
  - intros E. apply Qmult_integral in E as [E|E]; [|rewrite E in Hk; discriminate].
    change 0 with (inject_Z 0) in E. apply (proj1 (inject_Z_injective _ _)) in E. lia.
  - intros Hle. rewrite Z.max_r by lia. apply Qmult_0_l.
Qed.

Lemma pad_y_zero_iff : pad_y img == 0 <-> (Zpos (width img) <= Zpos (height img))%Z.
Proof.
  unfold pad_y, shape0, shape1.
  pose proof (max_tuple_shape_pos img) as Hm.
  assert (Hk : 0 < Py.truediv img_size (Py.max_tuple (shape img))).
  { unfold Py.truediv. apply Qlt_shift_div_l.
    - change 0 with (inject_Z 0). rewrite <- Zlt_Qlt. exact Hm.
    - rewrite Qmult_0_l. reflexivity. }
  generalize dependent (Py.truediv img_size (Py.max_tuple (shape img))). intros k Hk.
  split.
  - intros E. apply Qmult_integral in E as [E|E]; [|rewrite E in Hk; discriminate].
    change 0 with (inject_Z 0) in E. apply (proj1 (inject_Z_injective _ _)) in E. lia.
  - intros Hle. rewrite Z.max_r by lia. apply Qmult_0_l.
Qed.

End Orientation.

(** X2.  At most one axis is padded: [pad_x] is positive exactly for a
    picture higher than wide, [pad_y] exactly for one wider than high, and
    for a square picture both are zero. *)
Theorem only_the_short_axis_is_padded (img : Image) :
  (pad_x img == 0 \/ pad_y img == 0) /\
  (0 < pad_x img <-> (Zpos (width img) < Zpos (height img))%Z) /\
  (0 < pad_y img <-> (Zpos (height img) < Zpos (width img))%Z).
Proof.
  pose proof (pad_x_zero_iff img) as Hx. pose proof (pad_y_zero_iff img) as Hy.
  pose proof (pad_x_bounds img) as [Hx0 _]. pose proof (pad_y_bounds img) as [Hy0 _].
  split; [|split].
  - destruct (Z_le_gt_dec (Zpos (height img)) (Zpos (width img))).
    + left. apply Hx. assumption.
    + right. apply Hy. lia.
  - split.
    + intros Hp. destruct (Z_lt_le_dec (Zpos (width img)) (Zpos (height img))); [assumption|].
      apply Hx in l. rewrite l in Hp. discriminate.
    + intros Hlt. apply Qle_lteq in Hx0 as [Hp|E]; [exact Hp|].
      symmetry in E. apply Hx in E. lia.
  - split.
    + intros Hp. destruct (Z_lt_le_dec (Zpos (height img)) (Zpos (width img))); [assumption|].
      apply Hy in l. rewrite l in Hp. discriminate.
    + intros Hlt. apply Qle_lteq in Hy0 as [Hp|E]; [exact Hp|].
      symmetry in E. apply Hy in E. lia.
Qed.

Section Affine.

(** The map [x |-> ((x - p) / u) * s] for positive [u] and [s]. *)
Lemma affine_lt (p u s a b : Q) :
  0 < u -> 0 < s -> (a < b <-> ((a - p) / u) * s < ((b - p) / u) * s).
Proof.
  intros Hu Hs.
  assert (Hk : 0 < s / u) by (apply Qlt_shift_div_l; lra).
  assert (Ea : ((a - p) / u) * s == (a - p) * (s / u)) by (field; lra).
  assert (Eb : ((b - p) / u) * s == (b - p) * (s / u)) by (field; lra).
  rewrite Ea, Eb. generalize dependent (s / u). intros k Hk _ _.
  rewrite (Qmult_lt_r _ _ k Hk). split; intros; lra.
Qed.

Lemma affine_ends (p u s : Q) :
  0 < u -> ((p - p) / u) * s == 0 /\ ((p + u - p) / u) * s == s.
Proof. intros Hu. split; field; lra. Qed.

Lemma affine_sum (p u s a b : Q) :
  0 < u -> ((a - p) / u) * s + ((b - a) / u) * s == ((b - p) / u) * s.
Proof. intros Hu. field. lra. Qed.

Lemma affine_sign (u s a b : Q) :
  0 < u -> 0 < s -> (0 <= ((b - a) / u) * s <-> a <= b).
Proof.
  intros Hu Hs.
  assert (Hk : 0 < s / u) by (apply Qlt_shift_div_l; lra).
  assert (E : ((b - a) / u) * s == (b - a) * (s / u)) by (field; lra).
  rewrite E. generalize dependent (s / u). intros k Hk _.
  split; intros H.
  - assert (0 <= b - a); [|lra]. apply (Qmult_le_r _ _ k Hk). lra.
  - apply Qmult_le_0_compat; lra.
Qed.

End Affine.

(** X3.  The drawn box runs from the rescaled corner (x1, y1) to the
    rescaled corner (x2, y2): anchor plus extent is the rescaling of the
    opposite corner, and an extent is negative exactly when the network
    gave the corners in the wrong order. *)
Theorem box_edges_are_rescaled_corners (img : Image) (d : Detection) :
  let b := bounding_box img d in
  box_x b == rescale_x img (x1 d) /\
  box_y b == rescale_y img (y1 d) /\
  box_x b + box_width b == rescale_x img (x2 d) /\
  box_y b + box_height b == rescale_y img (y2 d) /\
  (0 <= box_width b <-> x1 d <= x2 d) /\
  (0 <= box_height b <-> y1 d <= y2 d).
Proof.
  pose proof (unpad_w_pos img) as Hw. pose proof (unpad_h_pos img) as Hh.
  assert (Sw : 0 < inject_Z (shape1 img)) by reflexivity.
  assert (Sh : 0 < inject_Z (shape0 img)) by reflexivity.
  cbn zeta. unfold bounding_box, box_x, box_y, box_width, box_height,
    rescale_x, rescale_y, box_w, box_h.
  split; [reflexivity|]. split; [reflexivity|].
  split; [apply affine_sum, Hw|]. split; [apply affine_sum, Hh|].
  split; apply affine_sign; assumption.
Qed.

(** X4.  On each axis the rescaling is strictly increasing, sends
    [pad // 2] to 0 and [pad // 2 + unpad] to the side of the picture. *)
Theorem rescale_is_increasing_onto_image (img : Image) :
  (forall a b : Q, a < b <-> rescale_x img a < rescale_x img b) /\
  (forall a b : Q, a < b <-> rescale_y img a < rescale_y img b) /\
  rescale_x img (Py.floordiv (pad_x img) 2) == 0 /\
  rescale_x img (Py.floordiv (pad_x img) 2 + unpad_w img) == inject_Z (Zpos (width img)) /\
  rescale_y img (Py.floordiv (pad_y img) 2) == 0 /\
  rescale_y img (Py.floordiv (pad_y img) 2 + unpad_h img) == inject_Z (Zpos (height img)).
Proof.
  pose proof (unpad_w_pos img) as Hw. pose proof (unpad_h_pos img) as Hh.
  assert (Sw : 0 < inject_Z (shape1 img)) by reflexivity.
  assert (Sh : 0 < inject_Z (shape0 img)) by reflexivity.
  unfold rescale_x, rescale_y.
  split; [intros a b; apply affine_lt; assumption|].
  split; [intros a b; apply affine_lt; assumption|].
  destruct (affine_ends (Py.floordiv (pad_x img) 2) _ (inject_Z (shape1 img)) Hw) as [A B].
  destruct (affine_ends (Py.floordiv (pad_y img) 2) _ (inject_Z (shape0 img)) Hh) as [C D].
  repeat split; assumption.
Qed.

(** ** The letterbox, continued *)

Section Resizing.

Variable img : Image.

Local Abbreviation W := (Zpos (width img)).
Local Abbreviation H := (Zpos (height img)).

Lemma resized_landscape :
  (H <= W)%Z -> imw img = img_size /\ (0 <= imh img <= img_size)%Z.
Proof.
  intros Hle. unfold imw, imh, size. cbn [fst snd].
  rewrite (ratio_landscape img Hle). split.
  - rewrite (round_comp _ _ (scale_long_side img_size W eq_refl)).
    apply round_inject_Z.
  - apply round_bounds; apply scale_short_side; unfold img_size; lia.
Qed.

Lemma resized_portrait :
  (W <= H)%Z -> imh img = img_size /\ (0 <= imw img <= img_size)%Z.
Proof.
  intros Hle. unfold imw, imh, size. cbn [fst snd].
  assert (Hr : ratio img = Py.truediv img_size H).
  { destruct (Z.eq_dec W H) as [E|Hne].
    - rewrite (ratio_landscape img ltac:(lia)), E. reflexivity.
    - apply ratio_portrait. lia. }
  rewrite Hr. split.
  - rewrite (round_comp _ _ (scale_long_side img_size H eq_refl)).
    apply round_inject_Z.
  - apply round_bounds; apply scale_short_side; unfold img_size; lia.
Qed.

(** Rounding moves a number by at most one half. *)
Lemma round_within_half (x : Q) :
  inject_Z (Py.round x) - x <= 1 # 2 /\ x - inject_Z (Py.round x) <= 1 # 2.
Proof.
  pose proof (Qfloor_le x) as Hlo. pose proof (Qlt_floor x) as Hhi.
  rewrite inject_Z_plus in Hhi. change (inject_Z 1) with 1 in Hhi.
  unfold Py.round.
  destruct (Qcompare_spec (x - inject_Z (Qfloor x)) (1 # 2)) as [E|L|G].
  - destruct (Z.even (Qfloor x)).
    + lra.
    + rewrite inject_Z_plus. change (inject_Z 1) with 1. lra.
  - lra.
  - rewrite inject_Z_plus. change (inject_Z 1) with 1. lra.
Qed.

End Resizing.

(** X6.  [detect_objects] resizes the longer side of the picture to
    exactly [img_size] and the other side to between 0 and [img_size]. *)
Theorem long_side_fills_the_input (img : Image) :
  ((Zpos (height img) <= Zpos (width img))%Z ->
     imw img = img_size /\ (0 <= imh img <= img_size)%Z) /\
  ((Zpos (width img) <= Zpos (height img))%Z ->
     imh img = img_size /\ (0 <= imw img <= img_size)%Z).
Proof. split; [apply resized_landscape|apply resized_portrait]. Qed.

Lemma long_side_fills_the_input_witness :
  (imw (blank 500 333) = img_size /\ (0 <= imh (blank 500 333) <= img_size)%Z) /\
  (imh (blank 333 500) = img_size /\ (0 <= imw (blank 333 500) <= img_size)%Z).
Proof.
  split.
  - apply (long_side_fills_the_input (blank 500 333)). vm_compute. discriminate.
  - apply (long_side_fills_the_input (blank 333 500)). vm_compute. discriminate.
Defined.

(** X7.  Both resized sides are the sides of the picture times one common
    ratio, rounded: each is within half a pixel of it, so that
    imw * height and imh * width differ by at most (width + height) / 2. *)
Theorem resize_keeps_aspect_within_half_pixel (img : Image) :
  let W := inject_Z (Zpos (width img)) in
  let H := inject_Z (Zpos (height img)) in
  inject_Z (imw img) - W * ratio img <= 1 # 2 /\
  W * ratio img - inject_Z (imw img) <= 1 # 2 /\
  inject_Z (imh img) - H * ratio img <= 1 # 2 /\
  H * ratio img - inject_Z (imh img) <= 1 # 2 /\
  inject_Z (imw img) * H - inject_Z (imh img) * W <= (W + H) * (1 # 2) /\
  inject_Z (imh img) * W - inject_Z (imw img) * H <= (W + H) * (1 # 2).
Proof.
  cbn zeta.
  assert (HW : 0 < inject_Z (Zpos (width img))) by reflexivity.
  assert (HH : 0 < inject_Z (Zpos (height img))) by reflexivity.
  unfold imw, imh, size. cbn [fst snd].
  pose proof (round_within_half (inject_Z (Zpos (width img)) * ratio img)) as [A B].
  pose proof (round_within_half (inject_Z (Zpos (height img)) * ratio img)) as [C D].
  generalize dependent (Py.round (inject_Z (Zpos (width img)) * ratio img)).
  generalize dependent (Py.round (inject_Z (Zpos (height img)) * ratio img)).
  intros ih C D iw A B.
  generalize dependent (ratio img). intros r.
  generalize dependent (inject_Z (Zpos (width img))).
  generalize dependent (inject_Z (Zpos (height img))).
  intros H HH W HW ? ? ? ?.
  repeat split; try assumption; nra.
Qed.

Section Padding.

Variable img : Image.

Lemma letterbox_landscape :
  (Zpos (height img) <= Zpos (width img))%Z ->
  img_transforms img
  = Pad 0 ((img_size - imh img) / 2) 0 ((img_size - imh img) / 2) (128, 128, 128)%Z
        (Resize (imh img) img_size (Decoded img)).
Proof.
  intros Hle. destruct (resized_landscape img Hle) as [Hw Hh].
  unfold img_transforms. rewrite !int_half, Hw.
  rewrite (Z.max_r (Z.quot (imh img - img_size) 2) 0)
    by (apply Z.quot_le_upper_bound; lia).
  rewrite (Z.max_l (Z.quot (img_size - imh img) 2) 0) by (apply Z.quot_pos; lia).
  rewrite Z.quot_div_nonneg by lia. reflexivity.
Qed.

Lemma letterbox_portrait :
  (Zpos (width img) <= Zpos (height img))%Z ->
  img_transforms img
  = Pad ((img_size - imw img) / 2) 0 ((img_size - imw img) / 2) 0 (128, 128, 128)%Z
        (Resize img_size (imw img) (Decoded img)).
Proof.
  intros Hle. destruct (resized_portrait img Hle) as [Hh Hw].
  unfold img_transforms. rewrite !int_half, Hh.
  rewrite (Z.max_r (Z.quot (imw img - img_size) 2) 0)
    by (apply Z.quot_le_upper_bound; lia).
  rewrite (Z.max_l (Z.quot (img_size - imw img) 2) 0) by (apply Z.quot_pos; lia).
  rewrite Z.quot_div_nonneg by lia. reflexivity.
Qed.

End Padding.

(** X8.  Whenever the transforms hand a tensor to the network, it holds
    one picture: the resized one, of three bands and with at least one
    pixel a side, between two equal grey bands, above and below for a
    picture at least as wide as high, left and right otherwise; its
    padded-free side is [img_size], and each of its sides is [img_size]
    or one pixel less. *)
Theorem network_input_is_416_or_415 (img : Image) (t : Tensor) :
  image_tensor img = inr t ->
  exists p : Picture,
    t = [p] /\ accepted img /\
    ((Zpos (height img) <= Zpos (width img))%Z ->
       p = Pad 0 ((img_size - imh img) / 2) 0 ((img_size - imh img) / 2) (128, 128, 128)%Z
             (Resize (imh img) img_size (Decoded img)) /\
       pic_width p = img_size) /\
    ((Zpos (width img) <= Zpos (height img))%Z ->
       p = Pad ((img_size - imw img) / 2) 0 ((img_size - imw img) / 2) 0 (128, 128, 128)%Z
             (Resize img_size (imw img) (Decoded img)) /\
       pic_height p = img_size) /\
    (img_size - 1 <= pic_width p <= img_size)%Z /\
    (img_size - 1 <= pic_height p <= img_size)%Z.
Proof.
  intros Ht.
  destruct (accepted_dec img) as [Hok|Hno];
    [|rewrite (image_tensor_rejected img Hno) in Ht; discriminate Ht].
  rewrite (image_tensor_accepted img Hok) in Ht. injection Ht as <-.
  exists (img_transforms img). split; [reflexivity|]. split; [exact Hok|].
  destruct (letterbox_size img) as [Ew Eh].
  pose proof (Z.mod_pos_bound (img_size - imw img) 2 eq_refl).
  pose proof (Z.mod_pos_bound (img_size - imh img) 2 eq_refl).
  split; [|split; [|split; lia]].
  - intros Hle. destruct (resized_landscape img Hle) as [Hw Hh].
    split; [apply letterbox_landscape, Hle|rewrite Ew, Hw; reflexivity].
  - intros Hle. destruct (resized_portrait img Hle) as [Hh Hw].
    split; [apply letterbox_portrait, Hle|rewrite Eh, Hh; reflexivity].
Qed.

Lemma network_input_is_416_or_415_witness :
  exists p : Picture,
    [Pad 0 69 0 69 (128, 128, 128)%Z (Resize 277 416 (Decoded (blank 500 333)))] = [p] /\
    accepted (blank 500 333) /\
    ((Zpos (height (blank 500 333)) <= Zpos (width (blank 500 333)))%Z ->
       p = Pad 0 ((img_size - imh (blank 500 333)) / 2) 0
                 ((img_size - imh (blank 500 333)) / 2) (128, 128, 128)%Z
                 (Resize (imh (blank 500 333)) img_size (Decoded (blank 500 333))) /\
       pic_width p = img_size) /\
    ((Zpos (width (blank 500 333)) <= Zpos (height (blank 500 333)))%Z ->
       p = Pad ((img_size - imw (blank 500 333)) / 2) 0
               ((img_size - imw (blank 500 333)) / 2) 0 (128, 128, 128)%Z
               (Resize img_size (imw (blank 500 333)) (Decoded (blank 500 333))) /\
       pic_height p = img_size) /\
    (img_size - 1 <= pic_width p <= img_size)%Z /\
    (img_size - 1 <= pic_height p <= img_size)%Z.
Proof.
  apply (network_input_is_416_or_415 (blank 500 333)).
  vm_compute. reflexivity.
Defined.

(** The transforms take a 500 x 333 RGB picture, and refuse a 1000 x 1
    picture, whose height is resized to nothing, and a greyscale one. *)
Example image_tensor_examples :
  image_tensor (blank 500 333) = inr (unsqueeze_ (img_transforms (blank 500 333))) /\
  image_tensor (blank 1000 1) = inl Py.ValueError /\
  image_tensor (mkImage 500 375 1 (fun _ _ => [0%Z])) = inl Py.ValueError.
Proof. vm_compute. repeat split. Qed.

(** X9.  Whenever the transforms hand a tensor to the network, it is the
    [img_size] square exactly when both resized sides are even. *)
Theorem network_input_square_iff_even (img : Image) (t : Tensor) :
  image_tensor img = inr t ->
  (input_shape t = [(img_size, img_size)]
   <-> Z.even (imw img) = true /\ Z.even (imh img) = true).
Proof.
  intros Ht.
  destruct (accepted_dec img) as [Hok|Hno];
    [|rewrite (image_tensor_rejected img Hno) in Ht; discriminate Ht].
  rewrite (image_tensor_accepted img Hok) in Ht. injection Ht as <-.
  apply letterbox_square_iff.
Qed.

Lemma network_input_square_iff_even_witness :
  input_shape [Pad 0 52 0 52 (128, 128, 128)%Z (Resize 312 416 (Decoded (blank 500 375)))]
  = [(img_size, img_size)]
  <-> Z.even (imw (blank 500 375)) = true /\ Z.even (imh (blank 500 375)) = true.
Proof.
  apply (network_input_square_iff_even (blank 500 375)).
  vm_compute. reflexivity.
Defined.

(** ** Where the two functions meet *)

Lemma scale_rest (s a b : Z) :
  (0 < b)%Z ->
  inject_Z s - inject_Z (b - a) * Py.truediv s b == inject_Z a * Py.truediv s b.
Proof.
  intros Hb. unfold Py.truediv, Z.sub. rewrite inject_Z_plus, inject_Z_opp.
  field. intros E. destruct b; discriminate.
Qed.

Section Agreement.

Variable img : Image.

Local Abbreviation W := (Zpos (width img)).
Local Abbreviation H := (Zpos (height img)).

Hypothesis few_bands : (Zpos (bands img) <= Z.max W H)%Z.

Lemma max_tuple_is_long_side : Py.max_tuple (shape img) = Z.max W H.
Proof.
  unfold shape, Py.max_tuple.
  destruct (bands img =? 1)%positive; cbn [fold_left]; lia.
Qed.

Lemma unpad_w_exact : unpad_w img == inject_Z W * ratio img.
Proof.
  unfold unpad_w, pad_x, shape0, shape1. rewrite max_tuple_is_long_side.
  destruct (Z_le_gt_dec H W) as [Hle|Hgt].
  - rewrite (ratio_landscape img Hle), Z.max_r, Z.max_l by lia.
    rewrite (scale_long_side img_size W eq_refl). ring.
  - rewrite (ratio_portrait img ltac:(lia)), Z.max_l, Z.max_r by lia.
    apply scale_rest. reflexivity.
Qed.

Lemma unpad_h_exact : unpad_h img == inject_Z H * ratio img.
Proof.
  unfold unpad_h, pad_y, shape0, shape1. rewrite max_tuple_is_long_side.
  destruct (Z_le_gt_dec H W) as [Hle|Hgt].
  - rewrite (ratio_landscape img Hle), Z.max_l, Z.max_l by lia.
    apply scale_rest. reflexivity.
  - rewrite (ratio_portrait img ltac:(lia)), Z.max_r, Z.max_r by lia.
    rewrite (scale_long_side img_size H eq_refl). ring.
Qed.

End Agreement.

Section Floors.

(** Two numbers a quarter apart have floors at most one apart. *)
Lemma floors_close (x y : Q) :
  x - y <= 1 # 4 -> y - x <= 1 # 4 ->
  (- 1 <= Qfloor x - Qfloor y <= 1)%Z.
Proof.
  intros H1 H2.
  pose proof (Qfloor_le x) as Lx. pose proof (Qlt_floor x) as Ux.
  pose proof (Qfloor_le y) as Ly. pose proof (Qlt_floor y) as Uy.
  rewrite inject_Z_plus in Ux, Uy. change (inject_Z 1) with 1 in Ux, Uy.
  split.
  - assert (Hlt : inject_Z (Qfloor y) < inject_Z (Qfloor x + 2)).
    { rewrite inject_Z_plus. change (inject_Z 2) with 2. lra. }
    rewrite <- Zlt_Qlt in Hlt. lia.
  - assert (Hlt : inject_Z (Qfloor x) < inject_Z (Qfloor y + 2)).
    { rewrite inject_Z_plus. change (inject_Z 2) with 2. lra. }
    rewrite <- Zlt_Qlt in Hlt. lia.
Qed.

(** Halving two numbers a half apart leaves floors at most one apart. *)
Lemma halves_close (x y : Q) :
  x - y <= 1 # 2 -> y - x <= 1 # 2 ->
  (- 1 <= Qfloor (x / inject_Z 2) - Qfloor (y / 2) <= 1)%Z.
Proof.
  intros H1 H2. change (inject_Z 2) with 2.
  assert (Ex : x / 2 == x * (1 # 2)) by field.
  assert (Ey : y / 2 == y * (1 # 2)) by field.
  apply floors_close; rewrite Ex, Ey; lra.
Qed.

End Floors.

(** X10.  For a picture with no more bands than its longer side has
    pixels, the two functions agree to within a pixel: each side
    [detect_objects] resizes to is less than one pixel away from the
    unpadded extent [show_objects] divides by, and the band
    [detect_objects] adds on each axis differs from the [pad // 2] that
    [show_objects] subtracts by at most one pixel. *)
Theorem show_objects_unpads_what_detect_objects_padded (img : Image) :
  (Zpos (bands img) <= Z.max (Zpos (width img)) (Zpos (height img)))%Z ->
  (inject_Z (imw img) - unpad_w img < 1 /\ unpad_w img - inject_Z (imw img) < 1) /\
  (inject_Z (imh img) - unpad_h img < 1 /\ unpad_h img - inject_Z (imh img) < 1) /\
  (- 1 <= (padding (img_transforms img)).1.1.1 - Qfloor (pad_x img / 2) <= 1)%Z /\
  (- 1 <= (padding (img_transforms img)).1.1.2 - Qfloor (pad_y img / 2) <= 1)%Z.
Proof.
  intros Hb.
  pose proof (unpad_w_exact img Hb) as Uw. pose proof (unpad_h_exact img Hb) as Uh.
  assert (Ew : imw img = Py.round (unpad_w img)).
  { unfold imw, size. cbn [fst]. apply round_comp. symmetry. exact Uw. }
  assert (Eh : imh img = Py.round (unpad_h img)).
  { unfold imh, size. cbn [snd]. apply round_comp. symmetry. exact Uh. }
  pose proof (round_within_half (unpad_w img)) as [Aw Bw].
  pose proof (round_within_half (unpad_h img)) as [Ah Bh].
  rewrite <- Ew in Aw, Bw. rewrite <- Eh in Ah, Bh. clear Uw Uh.
  split; [split; lra|]. split; [split; lra|].
  assert (Fw : (- 1 <= (img_size - imw img) / 2 - Qfloor (pad_x img / 2) <= 1)%Z).
  { rewrite Zdiv_Qdiv. apply halves_close; unfold unpad_w in Aw, Bw;
      unfold Z.sub; rewrite inject_Z_plus, inject_Z_opp; lra. }
  assert (Fh : (- 1 <= (img_size - imh img) / 2 - Qfloor (pad_y img / 2) <= 1)%Z).
  { rewrite Zdiv_Qdiv. apply halves_close; unfold unpad_h in Ah, Bh;
      unfold Z.sub; rewrite inject_Z_plus, inject_Z_opp; lra. }
  destruct (Z_le_gt_dec (Zpos (height img)) (Zpos (width img))) as [Hle|Hgt].
  - rewrite (letterbox_landscape img Hle). cbn [padding fst snd].
    split; [|exact Fh].
    destruct (resized_landscape img Hle) as [Hw _]. rewrite Hw in Fw.
    rewrite Z.sub_diag in Fw. exact Fw.
  - rewrite (letterbox_portrait img ltac:(lia)). cbn [padding fst snd].
    split; [exact Fw|].
    destruct (resized_portrait img ltac:(lia)) as [Hh _]. rewrite Hh in Fh.
    rewrite Z.sub_diag in Fh. exact Fh.
Qed.

Lemma show_objects_unpads_what_detect_objects_padded_witness :
  (inject_Z (imw (blank 768 420)) - unpad_w (blank 768 420) < 1 /\
   unpad_w (blank 768 420) - inject_Z (imw (blank 768 420)) < 1) /\
  (inject_Z (imh (blank 768 420)) - unpad_h (blank 768 420) < 1 /\
   unpad_h (blank 768 420) - inject_Z (imh (blank 768 420)) < 1) /\
  (- 1 <= (padding (img_transforms (blank 768 420))).1.1.1
          - Qfloor (pad_x (blank 768 420) / 2) <= 1)%Z /\
  (- 1 <= (padding (img_transforms (blank 768 420))).1.1.2
          - Qfloor (pad_y (blank 768 420) / 2) <= 1)%Z.
Proof.
  apply (show_objects_unpads_what_detect_objects_padded (blank 768 420)).
  vm_compute. discriminate.
Defined.

(** X5.  For a picture with no more bands than its longer side has pixels,
    [show_objects] stretches both axes by the same factor, the longer side
    over [img_size]: anchor and extent are the network-space offsets from
    [pad // 2], and the network-space extents, times that factor. *)
Theorem rescaling_is_isotropic (img : Image) (d : Detection) :
  (Zpos (bands img) <= Z.max (Zpos (width img)) (Zpos (height img)))%Z ->
  let k := inject_Z (Z.max (Zpos (width img)) (Zpos (height img))) / inject_Z img_size in
  let b := bounding_box img d in
  box_x b == (x1 d - Py.floordiv (pad_x img) 2) * k /\
  box_y b == (y1 d - Py.floordiv (pad_y img) 2) * k /\
  box_width b == (x2 d - x1 d) * k /\
  box_height b == (y2 d - y1 d) * k.
Proof.
  intros Hb. cbn zeta.
  pose proof (unpad_w_exact img Hb) as Uw. pose proof (unpad_h_exact img Hb) as Uh.
  assert (Hr : ratio img
               = Py.truediv img_size (Z.max (Zpos (width img)) (Zpos (height img)))).
  { destruct (Z_le_gt_dec (Zpos (height img)) (Zpos (width img))) as [Hle|Hgt].
    - rewrite Z.max_l by lia. apply ratio_landscape, Hle.
    - rewrite Z.max_r by lia. apply ratio_portrait. lia. }
  rewrite Hr in Uw, Uh. clear Hr.
  assert (Hm : ~ inject_Z (Z.max (Zpos (width img)) (Zpos (height img))) == 0).
  { intros E. change 0 with (inject_Z 0) in E.
    apply (proj1 (inject_Z_injective _ _)) in E. lia. }
  assert (Hw : ~ inject_Z (Zpos (width img)) == 0) by (intros E; discriminate E).
  assert (Hh : ~ inject_Z (Zpos (height img)) == 0) by (intros E; discriminate E).
  unfold bounding_box, box_x, box_y, box_width, box_height,
    rescale_x, rescale_y, box_w, box_h, shape0, shape1.
  rewrite Uw, Uh. unfold Py.truediv, img_size.
  generalize dependent (inject_Z (Z.max (Zpos (width img)) (Zpos (height img)))).
  clear Uw Uh. intros M HM.
  repeat split; field; repeat split; try assumption; discriminate.
Qed.

Lemma rescaling_is_isotropic_witness :
  let img := blank 500 333 in
  let d := corners 100 120 200 180 in
  let k := inject_Z (Z.max 500 333) / inject_Z img_size in
  let b := bounding_box img d in
  box_x b == (x1 d - Py.floordiv (pad_x img) 2) * k /\
  box_y b == (y1 d - Py.floordiv (pad_y img) 2) * k /\
  box_width b == (x2 d - x1 d) * k /\
  box_height b == (y2 d - y1 d) * k.
Proof.
  apply (rescaling_is_isotropic (blank 500 333) (corners 100 120 200 180)).
  vm_compute. discriminate.
Defined.

(** ** What [show_objects] draws, continued *)

Section Captions.

Lemma captions_app (s t : list Event) :
  captions (s ++ t) = captions s ++ captions t.
Proof.
  induction s as [|e s IH]; [reflexivity|].
  destruct e; cbn; rewrite ?IH; reflexivity.
Qed.

(** The closing events of [show_objects] hold no rectangle and no label. *)
Lemma rectangles_closing (v : Py.error + unit) :
  rectangles match v with inr _ => [AxisOff; Show] | inl _ => [] end = [].
Proof. destruct v; reflexivity. Qed.

Lemma captions_closing (v : Py.error + unit) :
  captions match v with inr _ => [AxisOff; Show] | inl _ => [] end = [].
Proof. destruct v; reflexivity. Qed.

End Captions.

Ltac raised := split; [reflexivity|left; split; [reflexivity|auto]].

Section AnyDrawing.

Variables (classes : list string) (labels : list nat) (cols : list Color).
Variable img : Image.

(** One pass of the loop body either raises before it draws, or draws
    one rectangle and its label. *)
Lemma draw_detection_cases (d : Detection) (w : World) :
  let r := draw_detection classes labels cols img d w in
  final r = w /\
  ((trace r = [] /\ (value r = inl Py.IndexError \/ value r = inl Py.TypeError)) \/
   (exists name k col,
      classes !! cls_pred d = Some name /\
      where_eq labels (cls_pred d) 0 = [k] /\ cols !! k = Some col /\
      value r = inr tt /\
      trace r = [AddPatch (bounding_box img d) col;
                 Text (box_x (bounding_box img d)) (box_y (bounding_box img d))
                      (mkLabel name (cls_conf d)) col])).
Proof.
  cbn zeta. unfold draw_detection, bind, getitem.
  destruct (classes !! cls_pred d) as [name|]; cbn; [|raised].
  destruct (where_eq labels (cls_pred d) 0) as [|k [|k' ks]]; cbn;
    [raised| |raised].
  destruct (cols !! k) as [col|] eqn:Hc; cbn; [|raised].
  split; [reflexivity|]. right. exists name, k, col. repeat split. exact Hc.
Qed.

Lemma draw_loop_any (dets : list Detection) (w : World) :
  let r := for_each dets (draw_detection classes labels cols img) w in
  final r = w /\ shown (trace r) = O /\ printed (trace r) = [] /\
  (value r = inr tt \/ value r = inl Py.IndexError \/ value r = inl Py.TypeError) /\
  exists m : nat,
    Forall3 (rendered classes cols img) (take m dets) (rectangles (trace r)) (captions (trace r)) /\
    (value r = inr tt -> m = length dets).
Proof.
  induction dets as [|d dets IH]; cbn zeta.
  - repeat split; [left; reflexivity|]. exists O. split; [constructor|reflexivity].
  - cbn [for_each]. unfold bind.
    destruct (draw_detection_cases d w) as [Hf [[Ht Hv]|(name & k & col & Hn & Hk & Hc & Hv & Ht)]].
    + cbn zeta in *. destruct Hv as [Hv|Hv]; rewrite Hv, Ht, Hf.
      all: repeat split; [right; auto|]; exists O; split; [constructor|discriminate].
    + cbn zeta in *. rewrite Hv, Hf, Ht. cbn [value final trace app shown printed rectangles captions].
      destruct IH as (If & Is & Ip & Iv & m & Iall & Im).
      split; [exact If|]. split; [exact Is|]. split; [exact Ip|]. split; [exact Iv|].
      exists (S m). split.
      * cbn [take]. constructor; [|exact Iall].
        repeat split; cbn; [|exact Hn].
        eapply list_elem_of_lookup_2, Hc.
      * intros E. rewrite (Im E). reflexivity.
Qed.

End AnyDrawing.

Section Generator.

Context {A : Type}.

Lemma sample_loop_gen (n todo : nat) :
  forall (g : Rng) (pool : list A) (i : nat),
    length pool = n -> (i + todo <= n)%nat ->
    raw (sample_loop g pool n i todo).2 = raw g /\
    (pos g + todo <= pos (sample_loop g pool n i todo).2)%nat.
Proof.
  induction todo as [|todo IH]; intros g pool i Hlen Hle.
  - cbn. split; [reflexivity|lia].
  - cbn [sample_loop]. unfold randbelow.
    destruct (raw g (pos g) (n - i)) as [r rejected] eqn:Hraw.
    set (j := (r mod (n - i))%nat).
    assert (Hj : (j < n - i)%nat) by (apply Nat.mod_upper_bound; lia).
    destruct (lookup_lt_is_Some_2 pool j ltac:(lia)) as [x Hx].
    destruct (lookup_lt_is_Some_2 pool (n - i - 1) ltac:(lia)) as [y Hy].
    rewrite Hx, Hy.
    specialize (IH (mkRng (raw g) (pos g + S rejected)) (<[j := y]> pool) (S i)).
    rewrite length_insert in IH. specialize (IH Hlen ltac:(lia)).
    destruct (sample_loop _ (<[j := y]> pool) n (S i) todo) as [res g2].
    cbn [snd raw pos] in *. destruct IH as [IHraw IHpos]. split; [exact IHraw|lia].
Qed.

Lemma random_sample_gen (population : list A) (k : nat) (g : Rng) :
  (k <= length population)%nat ->
  raw (random_sample population k g).2 = raw g /\
  (pos g + k <= pos (random_sample population k g).2)%nat.
Proof.
  intros Hk. unfold random_sample.
  destruct (Nat.leb_spec k (length population)) as [_|]; [|lia].
  pose proof (sample_loop_gen (length population) k g population 0 eq_refl ltac:(lia)) as Hg.
  destruct (sample_loop g population (length population) 0 k) as [res g'].
  exact Hg.
Qed.

End Generator.

Section AnyShow.

Context `{Environment}.

Variable img : Image.
Variable w : World.

Lemma show_objects_of_none :
  show_objects img None w
  = mkResult (inr tt) w [Figure; Subplots; Imshow img; AxisOff; Show].
Proof. reflexivity. Qed.

(** With enough colours, [show_objects] is the drawing loop between its
    opening and, unless the loop raised, its closing events. *)
Lemma show_objects_any (dets : list Detection) :
  (length (unique (map cls_pred dets)) <= length colors)%nat ->
  exists (cols : list Color) (g' : Rng),
    random_sample colors (length (unique (map cls_pred dets))) (gen w) = (inr cols, g') /\
    cols ⊆ colors /\
    let loop := for_each dets
                  (draw_detection load_classes (unique (map cls_pred dets)) cols img)
                  (mkWorld (model w) g') in
    let r := show_objects img (Some dets) w in
    value r = value loop /\ final r = mkWorld (model w) g' /\
    trace r = [Figure; Subplots; Imshow img] ++ trace loop
              ++ match value loop with inr _ => [AxisOff; Show] | inl _ => [] end.
Proof.
  intros Hk.
  destruct (random_sample_ok colors _ (gen w) Hk) as (cols & g' & Hs & _ & Hsub & _).
  exists cols, g'. split; [exact Hs|]. split; [exact Hsub|]. cbn zeta.
  pose proof (draw_loop_any load_classes (unique (map cls_pred dets)) cols img dets
                (mkWorld (model w) g')) as (Hf & _).
  cbn zeta in Hf.
  unfold show_objects, bind, emit, on_gen. cbn -[colors random_sample].
  rewrite Hs. cbn.
  destruct (value (for_each dets _ _)) as [e|[]] eqn:Hv; cbn.
  - rewrite app_nil_r. repeat split. exact Hf.
  - rewrite Hf. repeat split.
Qed.

End AnyShow.

Section Projections.

Context {A B C : Type}.

Lemma Forall3_12 (R : A -> B -> C -> Prop) (P : A -> B -> Prop) l k m :
  (forall a b c, R a b c -> P a b) -> Forall3 R l k m -> Forall2 P l k.
Proof. intros HP Hall. induction Hall; constructor; eauto. Qed.

Lemma Forall3_13 (R : A -> B -> C -> Prop) (P : A -> C -> Prop) l k m :
  (forall a b c, R a b c -> P a c) -> Forall3 R l k m -> Forall2 P l m.
Proof. intros HP Hall. induction Hall; constructor; eauto. Qed.

Lemma Forall3_23 (R : A -> B -> C -> Prop) (P : B -> C -> Prop) l k m :
  (forall a b c, R a b c -> P b c) -> Forall3 R l k m -> Forall2 P k m.
Proof. intros HP Hall. induction Hall; constructor; eauto. Qed.

End Projections.

Section Quiet.

Context `{Environment}.

(** [show_objects] leaves the model alone, prints nothing, and shows the
    figure exactly when it does not raise. *)
Lemma show_objects_frame (img : Image) (detections : option (list Detection))
    (w : World) :
  let r := show_objects img detections w in
  model (final r) = model w /\
  printed (trace r) = [] /\
  ((value r = inr tt /\ shown (trace r) = 1%nat) \/
   ((value r = inl Py.ValueError \/ value r = inl Py.IndexError \/
     value r = inl Py.TypeError) /\ shown (trace r) = O)).
Proof.
  destruct detections as [dets|]; cbn zeta.
  - destruct (Nat.le_gt_cases (length (unique (map cls_pred dets))) (length colors))
      as [Hk|Hk].
    + destruct (show_objects_any img w dets Hk) as (cols & g' & _ & _ & Hv & Hf & Ht).
      cbn zeta in *.
      destruct (draw_loop_any load_classes (unique (map cls_pred dets)) cols img dets
                  (mkWorld (model w) g')) as (_ & Ls & Lp & Lv & _).
      cbn zeta in *. rewrite Hf, Ht, Hv. cbn [model].
      rewrite !printed_app, !shown_app, Lp, Ls.
      split; [reflexivity|].
      destruct Lv as [Lv|[Lv|Lv]]; rewrite Lv; cbn; split; auto.
    + rewrite (show_objects_too_many_classes img dets w Hk). cbn. auto 6.
  - rewrite show_objects_of_none. cbn. auto.
Qed.

End Quiet.


(** X12.  The rectangles are drawn in the order of the detections, without
    gaps: the i-th rectangle is the rescaled box of the i-th detection, in
    a colour of the tab20b palette; when [show_objects] returns, there is
    one for every detection. *)
Theorem rectangles_follow_the_detections `{Environment} (img : Image)
    (dets : list Detection) (w : World) :
  let r := show_objects img (Some dets) w in
  exists m : nat,
    Forall2 (fun d bc => bc.1 = bounding_box img d /\ bc.2 ∈ tab20b)
            (take m dets) (rectangles (trace r)) /\
    (value r = inr tt -> m = length dets).
Proof.
  cbn zeta.
  destruct (Nat.le_gt_cases (length (unique (map cls_pred dets))) (length colors))
    as [Hk|Hk].
  - destruct (show_objects_any img w dets Hk) as (cols & g' & _ & Hsub & Hv & _ & Ht).
    cbn zeta in *.
    destruct (draw_loop_any load_classes (unique (map cls_pred dets)) cols img dets
                (mkWorld (model w) g')) as (_ & _ & _ & _ & m & Hall & Hm).
    cbn zeta in *. exists m. rewrite Ht, Hv, !rectangles_app. split; [|exact Hm].
    rewrite rectangles_closing.
    cbn [rectangles app]. rewrite app_nil_r.
    eapply Forall3_12; [|exact Hall].
    intros d bc cap (Hb & Hc & _). split; [exact Hb|].
    rewrite <- colors_tab20b. apply Hsub, Hc.
  - rewrite (show_objects_too_many_classes img dets w Hk). exists O.
    split; [constructor|discriminate].
Qed.

(** X13.  Every label is drawn at the corner of its rectangle on the
    rectangle's colour, one label per rectangle; its text is the catalog
    name of the predicted class with the class confidence of the
    detection. *)
Theorem labels_sit_on_their_boxes `{Environment} (img : Image)
    (dets : list Detection) (w : World) :
  let r := show_objects img (Some dets) w in
  Forall2 (fun bc cap => cap.1.1 = (box_x bc.1, box_y bc.1) /\ cap.2 = bc.2)
          (rectangles (trace r)) (captions (trace r)) /\
  exists m : nat,
    Forall2 (fun d cap =>
               load_classes !! cls_pred d = Some (label_class cap.1.2) /\
               label_conf cap.1.2 = cls_conf d)
            (take m dets) (captions (trace r)) /\
    (value r = inr tt -> m = length dets).
Proof.
  cbn zeta.
  destruct (Nat.le_gt_cases (length (unique (map cls_pred dets))) (length colors))
    as [Hk|Hk].
  - destruct (show_objects_any img w dets Hk) as (cols & g' & _ & _ & Hv & _ & Ht).
    cbn zeta in *.
    destruct (draw_loop_any load_classes (unique (map cls_pred dets)) cols img dets
                (mkWorld (model w) g')) as (_ & _ & _ & _ & m & Hall & Hm).
    cbn zeta in *. rewrite Ht, Hv, !rectangles_app, !captions_app.
    rewrite rectangles_closing, captions_closing.
    cbn [rectangles captions app]. rewrite !app_nil_r.
    split.
    + eapply Forall3_23; [|exact Hall].
      intros d bc cap (_ & _ & Hcap & _). rewrite Hcap. split; reflexivity.
    + exists m. split; [|exact Hm].
      eapply Forall3_13; [|exact Hall].
      intros d bc cap (_ & _ & Hcap & Hn). split; [exact Hn|].
      rewrite Hcap. reflexivity.
  - rewrite (show_objects_too_many_classes img dets w Hk). cbn.
    split; [constructor|]. exists O. split; [constructor|discriminate].
Qed.

(** X14.  [show_objects] touches the random generator only through its
    one call of [random.sample]: with at most 20 unique class labels it
    leaves the generator as that call leaves it, moved on by at least one
    word per unique label, whether or not the drawing loop then raises;
    given None, or more than 20 unique labels, it leaves the generator as
    it was. *)
Theorem show_objects_samples_once `{Environment} (img : Image) (w : World) :
  final (show_objects img None w) = w /\
  forall dets : list Detection,
    let n := length (unique (map cls_pred dets)) in
    let r := show_objects img (Some dets) w in
    ((n <= 20)%nat ->
       final r = mkWorld (model w) (random_sample colors n (gen w)).2 /\
       raw (gen (final r)) = raw (gen w) /\
       (pos (gen w) + n <= pos (gen (final r)))%nat) /\
    ((20 < n)%nat -> final r = w).
Proof.
  split; [reflexivity|]. intros dets. cbn zeta. split; intros Hn.
  - assert (Hk : (length (unique (map cls_pred dets)) <= length colors)%nat)
      by (rewrite colors_length; exact Hn).
    destruct (show_objects_any img w dets Hk) as (cols & g' & Hs & _ & _ & Hf & _).
    cbn zeta in Hf. rewrite Hf.
    pose proof (random_sample_gen colors _ (gen w) Hk) as [Hraw Hpos].
    rewrite Hs in Hraw, Hpos |- *. cbn [snd gen] in *. auto.
  - rewrite show_objects_too_many_classes by (rewrite colors_length; exact Hn).
    reflexivity.
Qed.

(** ** Classes outside the catalog *)

Section Catalog.

Context `{Environment}.
Hypothesis unique_ok : unique_lawful.

Variable img : Image.

(** The loop draws the detections before the first one whose class the
    catalog does not hold, and raises IndexError at that one. *)
Lemma draw_loop_stops (labels : list nat) (cols : list Color)
    (known : list Detection) (stranger : Detection) (rest : list Detection)
    (w : World) :
  NoDup labels -> (length labels <= length cols)%nat ->
  (forall d, d ∈ known -> cls_pred d ∈ labels /\ (cls_pred d < length load_classes)%nat) ->
  (length load_classes <= cls_pred stranger)%nat ->
  let r := for_each (known ++ stranger :: rest)
             (draw_detection load_classes labels cols img) w in
  value r = inl Py.IndexError /\
  length (rectangles (trace r)) = length known /\
  shown (trace r) = O.
Proof.
  intros Hnd Hlen Hknown Hout. cbn zeta.
  induction known as [|d known IH]; cbn [app for_each]; unfold bind.
  - rewrite draw_detection_unknown by (apply lookup_ge_None; exact Hout).
    repeat split.
  - destruct (Hknown d ltac:(left)) as [Hin Hlt].
    destruct (lookup_lt_is_Some_2 load_classes (cls_pred d) Hlt) as [name Hname].
    destruct (draw_detection_known load_classes labels cols img Hnd Hlen d w name Hname Hin)
      as (bc & _ & Hr).
    rewrite Hr. cbn [value final trace app rectangles shown length].
    destruct IH as (Iv & Il & Is).
    { intros d' Hd'. apply Hknown. right. exact Hd'. }
    rewrite Iv, Il, Is. repeat split.
Qed.

End Catalog.

(** X15.  At the first detection whose class index is outside the catalog
    [show_objects] raises IndexError: the rectangles of the detections
    before it are drawn, no later one is, and the figure is not shown. *)
Theorem show_objects_stops_at_unknown_class `{Environment} (img : Image)
    (known : list Detection) (stranger : Detection) (rest : list Detection)
    (w : World) :
  unique_lawful ->
  (length (unique (map cls_pred (known ++ stranger :: rest))) <= length colors)%nat ->
  (forall d, d ∈ known -> (cls_pred d < length load_classes)%nat) ->
  (length load_classes <= cls_pred stranger)%nat ->
  let r := show_objects img (Some (known ++ stranger :: rest)) w in
  value r = inl Py.IndexError /\
  length (rectangles (trace r)) = length known /\
  shown (trace r) = O.
Proof.
  intros Hu Hk Hknown Hout. cbn zeta.
  destruct (Hu (map cls_pred (known ++ stranger :: rest))) as [Und Uin].
  destruct (show_objects_any img w _ Hk) as (cols & g' & Hs & _ & Hv & _ & Ht).
  cbn zeta in *.
  destruct (random_sample_ok colors _ (gen w) Hk) as (cols' & g'' & Hs' & Hlen & _).
  rewrite Hs in Hs'. injection Hs' as <- <-.
  destruct (draw_loop_stops img (unique (map cls_pred (known ++ stranger :: rest)))
              cols known stranger rest (mkWorld (model w) g') Und ltac:(lia))
    as (Lv & Ll & Ls); [|exact Hout|].
  { intros d Hd. split; [|apply Hknown, Hd].
    apply Uin, list_elem_of_fmap. exists d. split; [reflexivity|].
    apply elem_of_app. left. exact Hd. }
  cbn zeta in *. rewrite Hv, Ht, Lv. cbn [app]. rewrite app_nil_r.
  cbn [rectangles shown]. repeat split; assumption.
Qed.

Lemma show_objects_stops_at_unknown_class_witness :
  let E := mini [] in
  let r := show_objects (blank 500 375) (Some cat_and_stranger) start in
  value r = inl Py.IndexError /\
  length (rectangles (trace r)) = 1%nat /\
  shown (trace r) = O.
Proof.
  intros E.
  apply (@show_objects_stops_at_unknown_class E (blank 500 375)
           [mkDetection 100 200 300 330 1 (95 # 100) 15]
           (mkDetection 60 80 120 140 1 (9 # 10) 80)
           [mkDetection 200 90 260 150 1 (9 # 10) 14] start (mini_unique_lawful _)).
  - vm_compute. lia.
  - intros d Hd. apply list_elem_of_In in Hd. cbn in Hd.
    destruct Hd as [<-|[]]. vm_compute. lia.
  - vm_compute. lia.
Defined.

(** X16.  With at most as many unique labels as colours, [show_objects]
    returns exactly when every class index is within the catalog, and
    raises IndexError otherwise. *)
Theorem show_objects_succeeds_iff_classes_known `{Environment} (img : Image)
    (dets : list Detection) (w : World) :
  unique_lawful ->
  (length (unique (map cls_pred dets)) <= length colors)%nat ->
  let r := show_objects img (Some dets) w in
  (value r = inr tt <-> forall d, d ∈ dets -> (cls_pred d < length load_classes)%nat) /\
  (value r = inr tt \/ value r = inl Py.IndexError).
Proof.
  intros Hu Hk. cbn zeta.
  destruct (show_objects_enough_colors Hu img dets w Hk)
    as (cols & g' & Hs & _ & _ & _ & _ & m & _ & Hcase).
  cbn zeta in Hcase.
  split; [|destruct Hcase as [(Hv & _)|(Hv & _)]; auto].
  split.
  - intros Hv d Hd.
    destruct (show_objects_any img w dets Hk) as (cols' & g'' & Hs' & _ & Hv' & _ & _).
    cbn zeta in Hv'.
    destruct (draw_loop_any load_classes (unique (map cls_pred dets)) cols' img dets
                (mkWorld (model w) g'')) as (_ & _ & _ & _ & k & Hall & Hm).
    cbn zeta in *. rewrite <- Hv' in Hm. specialize (Hm Hv). subst k.
    rewrite firstn_all in Hall.
    apply list_elem_of_lookup_1 in Hd as [i Hi].
    assert (Hknown : Forall2 (fun d (_ : Box * Color) => is_Some (load_classes !! cls_pred d))
                       dets (rectangles (trace (for_each dets
                         (draw_detection load_classes (unique (map cls_pred dets)) cols' img)
                         (mkWorld (model w) g''))))).
    { eapply Forall3_12; [|exact Hall]. intros a b c (_ & _ & _ & Hn). eauto. }
    destruct (Forall2_lookup_l _ _ _ _ _ Hknown Hi) as (_ & _ & Hsome).
    apply lookup_lt_is_Some_1, Hsome.
  - intros Hall. destruct Hcase as [(Hv & _)|(_ & _ & d & Hd & Hnone)]; [exact Hv|].
    exfalso. apply lookup_ge_None in Hnone.
    specialize (Hall d (list_elem_of_lookup_2 _ _ _ Hd)). lia.
Qed.

Lemma show_objects_succeeds_iff_classes_known_witness :
  let E := mini [] in
  let r := show_objects (blank 500 375) (Some birds_and_cat) start in
  (value r = inr tt <->
   forall d, d ∈ birds_and_cat -> (cls_pred d < length load_classes)%nat) /\
  (value r = inr tt \/ value r = inl Py.IndexError).
Proof.
  intros E.
  apply (@show_objects_succeeds_iff_classes_known E (blank 500 375) birds_and_cat start
           (mini_unique_lawful _)).
  vm_compute. lia.
Defined.

(** ** The detector and the loop, continued *)


Section Loop.

Context `{Environment}.

Lemma for_each_app {A : Type} (l1 l2 : list A) (body : A -> M unit) (w : World) :
  for_each (l1 ++ l2) body w = (for_each l1 body ;; for_each l2 body) w.
Proof.
  revert w. induction l1 as [|a l1 IH]; intros w.
  - cbn [app for_each]. unfold bind, ret. cbn. destruct (for_each l2 body w); reflexivity.
  - cbn [app for_each]. unfold bind.
    destruct (body a w) as [[e|[]] w1 t1]; cbn; [reflexivity|].
    rewrite IH. unfold bind.
    destruct (for_each l1 body w1) as [[e|[]] w2 t2]; cbn;
      rewrite ?app_assoc; reflexivity.
Qed.

(** One iteration on a picture with detections: the count is printed
    first, then [show_objects] runs. *)
Lemma process_image_some (file : string) (img : Image) (w : World)
    (dets : list Detection) :
  value (detect_objects img w) = inr (Some dets) ->
  let r := process_image (file, img) w in
  let s := show_objects img (Some dets) (final (detect_objects img w)) in
  value r = value s /\ final r = final s /\
  trace r = Print (length dets) file :: trace s.
Proof.
  intros Hd. cbn zeta. unfold process_image.
  rewrite (bind_inr _ _ _ _ Hd), detect_objects_trace.
  repeat split.
Qed.

Lemma process_image_none (file : string) (img : Image) (w : World) :
  value (detect_objects img w) = inr None ->
  process_image (file, img) w
  = mkResult (inl Py.TypeError) (final (detect_objects img w)) [].
Proof.
  intros Hd. unfold process_image.
  rewrite (bind_inr _ _ _ _ Hd), detect_objects_trace. reflexivity.
Qed.

End Loop.

(** X18.  When [detect_objects] returns detections, the iteration prints
    its one line, with their number, before anything is drawn, also when
    [show_objects] then raises; the outcome of the iteration is that of
    [show_objects]. *)
Theorem count_is_printed_before_drawing `{Environment} (file : string) (img : Image)
    (w : World) (dets : list Detection) :
  value (detect_objects img w) = inr (Some dets) ->
  let r := process_image (file, img) w in
  let s := show_objects img (Some dets) (final (detect_objects img w)) in
  trace r = Print (length dets) file :: trace s /\
  printed (trace r) = [(length dets, file)] /\
  value r = value s.
Proof.
  intros Hd. cbn zeta.
  destruct (process_image_some file img w dets Hd) as (Hv & _ & Ht).
  cbn zeta in *. rewrite Ht, Hv. cbn [printed].
  destruct (show_objects_frame img (Some dets) (final (detect_objects img w)))
    as (_ & Hp & _).
  cbn zeta in Hp. rewrite Hp. repeat split.
Qed.

Lemma count_is_printed_before_drawing_witness :
  let E := mini (candidates 0 21 1) in
  let r := process_image ("000001.jpg"%string, blank 500 375) start in
  let s := show_objects (blank 500 375) (Some crowd)
             (final (detect_objects (blank 500 375) start)) in
  trace r = Print (length crowd) "000001.jpg" :: trace s /\
  printed (trace r) = [(length crowd, "000001.jpg"%string)] /\
  value r = value s.
Proof.
  intros E.
  apply (@count_is_printed_before_drawing E "000001.jpg"%string (blank 500 375) start crowd).
  vm_compute. reflexivity.
Defined.

(** X19.  A picture without detections stops the loop wherever it stands in
    the directory: what the pictures before it printed and drew stays, and
    nothing is added for it or for the pictures after it. *)
Theorem exception_keeps_earlier_output_and_skips_the_rest `{Environment}
    (before : list (string * Image)) (file : string) (img : Image)
    (rest : list (string * Image)) (w : World) :
  value (process_images before w) = inr tt ->
  value (detect_objects img (final (process_images before w))) = inr None ->
  let r := process_images (before ++ (file, img) :: rest) w in
  value r = inl Py.TypeError /\
  trace r = trace (process_images before w).
Proof.
  intros Hb Hd. cbn zeta. unfold process_images in *.
  rewrite for_each_app, (bind_inr _ _ _ _ Hb). cbn [for_each].
  rewrite (bind_inl _ _ _ Py.TypeError)
    by (rewrite (process_image_none file img _ Hd); reflexivity).
  rewrite (process_image_none file img _ Hd). cbn. rewrite app_nil_r.
  split; reflexivity.
Qed.

Lemma fussy_unique_lawful (params : list Q) : @unique_lawful (fussy params).
Proof.
  intros l. split; [apply NoDup_remove_dups|].
  intros c. apply elem_of_remove_dups.
Qed.

Lemma exception_keeps_earlier_output_and_skips_the_rest_witness :
  let E := fussy (candidates 14 2 1) in
  let before := [("000001.jpg"%string, blank 500 375)] in
  let r := process_images
             (before ++ ("000002.jpg"%string, blank 500 333)
                        :: [("000003.jpg"%string, blank 500 375)]) start in
  value r = inl Py.TypeError /\
  trace r = trace (process_images before start).
Proof.
  intros E before.
  apply (@exception_keeps_earlier_output_and_skips_the_rest E before
           "000002.jpg"%string (blank 500 333)
           [("000003.jpg"%string, blank 500 375)] start).
  - vm_compute. reflexivity.
  - vm_compute. reflexivity.
Defined.

Section Iteration.

Context `{Environment}.
Hypothesis read_only : reused_read_only.

(** However an iteration ends, it leaves the model prepared. *)
Lemma process_image_model (entry : string * Image) (w : World) :
  model (final (process_image entry w)) = prepared (model w).
Proof.
  destruct entry as [file img].
  pose proof (detect_objects_model read_only img w) as Hm.
  destruct (value (detect_objects img w)) as [e|[dets|]] eqn:Hv.
  - unfold process_image. rewrite (bind_inl _ _ _ e Hv). exact Hm.
  - destruct (process_image_some file img w dets Hv) as (_ & Hf & _).
    cbn zeta in Hf. rewrite Hf.
    destruct (show_objects_frame img (Some dets) (final (detect_objects img w)))
      as (Sm & _).
    cbn zeta in Sm. rewrite Sm. exact Hm.
  - rewrite (process_image_none file img w Hv). exact Hm.
Qed.

Lemma drawable_prepared (m : Darknet) (img : Image) :
  drawable m img -> drawable (prepared m) img.
Proof. unfold drawable. rewrite prepared_idempotent. tauto. Qed.

End Iteration.

(** X20.  When every picture of the directory goes through the transforms
    and yields, with the loaded model, detections that can be drawn, the
    loop returns, prints one line per picture in directory order, shows
    one figure per picture, and draws as many rectangles as the printed
    counts add up to. *)
Theorem every_picture_gets_a_line_and_a_figure `{Environment}
    (test_dir : list (string * Image)) (w : World) :
  unique_lawful -> reused_read_only ->
  (forall entry, entry ∈ test_dir -> drawable (model w) entry.2) ->
  let r := process_images test_dir w in
  value r = inr tt /\
  map snd (printed (trace r)) = map fst test_dir /\
  shown (trace r) = length test_dir /\
  length (rectangles (trace r)) = sum_list (map fst (printed (trace r))).
Proof.
  intros Hu Hro. cbn zeta. unfold process_images. revert w.
  induction test_dir as [|[file img] rest IH]; intros w Hd.
  - repeat split.
  - cbn [for_each map length fst snd].
    destruct (Hd (file, img) ltac:(left)) as (Hok & dets & tl & Hn & Hk & Hcat).
    cbn [snd] in *.
    assert (Hv : value (detect_objects img w) = inr (Some dets)).
    { rewrite detect_objects_run, (image_tensor_accepted img Hok).
      cbn zeta. cbn [value]. rewrite Hn. reflexivity. }
    destruct (process_image_some file img w dets Hv) as (Pv & _ & Pt).
    destruct (show_objects_draws_all Hu img dets (final (detect_objects img w)) Hk Hcat)
      as (Sv & Sp & Ss & Sr).
    cbn zeta in *. rewrite Sv in Pv.
    rewrite (bind_inr _ _ _ _ Pv).
    cbn [value final trace]. rewrite Pt.
    destruct (IH (final (process_image (file, img) w))) as (Iv & Ip & Is & Ir).
    { intros entry He. rewrite (process_image_model Hro).
      apply drawable_prepared, Hd. right. exact He. }
    cbn [app printed rectangles shown].
    rewrite !printed_app, !rectangles_app, !shown_app, Sp, Ss, length_app, Sr, Ir.
    cbn [app map fst snd sum_list sum_list_with]. rewrite Ip, Is.
    repeat split. exact Iv.
Qed.

Lemma every_picture_gets_a_line_and_a_figure_witness :
  let E := mini (candidates 14 2 1) in
  let test_dir := [("000001.jpg"%string, blank 500 375);
                   ("000002.jpg"%string, blank 500 333)] in
  let r := process_images test_dir start in
  value r = inr tt /\
  map snd (printed (trace r)) = map fst test_dir /\
  shown (trace r) = length test_dir /\
  length (rectangles (trace r)) = sum_list (map fst (printed (trace r))).
Proof.
  intros E test_dir.
  apply (@every_picture_gets_a_line_and_a_figure E test_dir start
           (mini_unique_lawful _) (mini_read_only _)).
  intros entry He. apply list_elem_of_In in He. cbn in He.
  assert (Hcat : forall d, d ∈ bird_and_cat -> (cls_pred d < length coco_names)%nat).
  { intros d Hd. apply list_elem_of_In in Hd. cbn in Hd.
    destruct Hd as [<-|[<-|[]]]; vm_compute; lia. }
  destruct He as [<-|[<-|[]]]; (split; [vm_compute; repeat split; reflexivity|]);
    exists bird_and_cat, []; (split; [vm_compute; reflexivity|]);
    (split; [vm_compute; lia|exact Hcat]).
Defined.

(** X21.  However the loop ends, it leaves the parameters of the model as
    they were; once a picture has been processed the model is the loaded
    one in evaluation mode on the device. *)
Theorem loop_never_changes_the_weights `{Environment}
    (test_dir : list (string * Image)) (w : World) :
  reused_read_only ->
  let r := process_images test_dir w in
  parameters (model (final r)) = parameters (model w) /\
  (test_dir <> [] -> model (final r) = prepared (model w)).
Proof.
  intros Hro. cbn zeta. unfold process_images.
  assert (Hstep : forall entry w0,
             model (final (process_image entry w0)) = prepared (model w0)).
  { intros [file img] w0.
    pose proof (detect_objects_model Hro img w0) as Hm.
    destruct (value (detect_objects img w0)) as [e|[dets|]] eqn:Hv.
    - unfold process_image. rewrite (bind_inl _ _ _ e Hv). exact Hm.
    - destruct (process_image_some file img w0 dets Hv) as (_ & Hf & _).
      cbn zeta in Hf. rewrite Hf.
      destruct (show_objects_frame img (Some dets) (final (detect_objects img w0)))
        as (Sm & _).
      cbn zeta in Sm. rewrite Sm. exact Hm.
    - rewrite (process_image_none file img w0 Hv). exact Hm. }
  assert (Hall : forall l w0,
             l <> [] -> model (final (for_each l process_image w0)) = prepared (model w0)).
  { induction l as [|entry l IH]; intros w0 Hne; [congruence|].
    cbn [for_each]. unfold bind.
    destruct (value (process_image entry w0)) as [e|[]] eqn:Hv; cbn [final].
    - apply Hstep.
    - destruct l as [|entry' l'].
      + cbn. apply Hstep.
      + rewrite IH by discriminate. rewrite Hstep. apply prepared_idempotent. }
  split.
  - destruct test_dir as [|entry l]; [reflexivity|].
    rewrite Hall by discriminate. unfold prepared.
    destruct cuda_is_available; reflexivity.
  - apply Hall.
Qed.

Lemma loop_never_changes_the_weights_witness :
  let E := fussy (candidates 14 2 1) in
  let test_dir := [("000001.jpg"%string, blank 500 375);
                   ("000002.jpg"%string, blank 500 333)] in
  let r := process_images test_dir start in
  parameters (model (final r)) = parameters (model start) /\
  model (final r) = prepared (model start).
Proof.
  intros E test_dir.
  destruct (@loop_never_changes_the_weights E test_dir start) as [Hp Hm].
  - intros m x Ht. reflexivity.
  - split; [exact Hp|]. apply Hm. discriminate.
Defined.

(** ** The palette *)

Section Second.

Context {A B C : Type}.


End Second.


